(** * Verification of the pre-prd service worker (src/sw.js)

    The worker is a cache-first, network-fallback request interceptor with
    an install / activate / fetch lifecycle.  Its three handlers are
    embedded below as computations over an explicit world (the CacheStorage
    contents and the log of host calls made), run against a host that fixes
    how the network and the store answer. *)

From stdpp Require Import base strings list gmap fin_maps.

Open Scope string_scope.
Open Scope list_scope.

(** ** Data model *)

(** The fields of [event.request] the worker reads. *)
Record Request := mkRequest {
  method : string;
  url : string;
  mode : string
}.

(** The fields of a [Response] the worker reads, and its payload. *)
Record Response := mkResponse {
  status : Z;
  type : string;
  body : string
}.

(** What a promise can reject with. *)
Inductive JsError :=
  | TypeError (msg : string)
  | DOMException (msg : string).

#[export] Instance JsError_eq_dec : EqDecision JsError.
Proof. solve_decision. Defined.

(** A settled promise. *)
Inductive Settled (A : Type) :=
  | Fulfilled (a : A)
  | Rejected (e : JsError).
Arguments Fulfilled {A} a.
Arguments Rejected {A} e.

(** Host calls with an effect outside the store, in call order. *)
Inductive Event :=
  | ConsoleLog (args : list string)
  | NetFetch (req : Request)
  | CachePut (name key : string) (r : Response)
  | CacheDelete (name : string)
  | SkipWaiting
  | ClientsClaim.

#[export] Instance Request_eq_dec : EqDecision Request.
Proof. solve_decision. Defined.
#[export] Instance Response_eq_dec : EqDecision Response.
Proof. solve_decision. Defined.
#[export] Instance Event_eq_dec : EqDecision Event.
Proof. solve_decision. Defined.

(** One Cache: request identity (the URL, query included) to response. *)
Abbreviation Cache := (gmap string Response).

(** CacheStorage: the named caches in creation order, the order in which
    [caches.keys()] lists them and [caches.match] searches them. *)
Abbreviation Store := (list (string * Cache)).

Record World := mkWorld {
  caches : Store;
  events : list Event
}.

(** The host: how the network answers a request, and which store
    operations fail (quota, platform denial). *)
Record Host := mkHost {
  net : Request → Settled (option Response);
  match_fault : string → option JsError;
  open_fault : string → option JsError;
  put_fault : string → string → option JsError;
  delete_fault : string → option JsError;
  keys_fault : option JsError
}.

(** The module-level constants of the worker. *)
Record Config := mkConfig {
  CACHE_NAME : string;
  STATIC_CACHE : string;
  CORE_ASSETS : list string
}.

Definition sw_config : Config := {|
  CACHE_NAME := "pre-prd-v1";
  STATIC_CACHE := "pre-prd-static-v1";
  CORE_ASSETS := [
    "/";
    "/assets/global.css";
    "/assets/favicon.svg";
    "/assets/manifest.json";
    "https://cdn.jsdelivr.net/npm/daisyui@4.12.10/dist/full.min.css";
    "https://cdn.tailwindcss.com";
    "https://unpkg.com/htmx.org@1.9.12";
    "https://fonts.googleapis.com/css2?family=Inter:wght@300;400;500;600;700;800&display=swap"
  ]
|}.

(** ** Promises as world-passing computations *)

Definition Task (A : Type) : Type := World → Settled A * World.

Definition resolve {A} (a : A) : Task A := λ w, (Fulfilled a, w).

Definition throw {A} (e : JsError) : Task A := λ w, (Rejected e, w).

(** [p.then(f)] *)
Definition and_then {A B} (p : Task A) (f : A → Task B) : Task B :=
  λ w, match p w with
       | (Fulfilled a, w') => f a w'
       | (Rejected e, w') => (Rejected e, w')
       end.

(** [p.catch(f)] *)
Definition catch {A} (p : Task A) (f : JsError → Task A) : Task A :=
  λ w, match p w with
       | (Fulfilled a, w') => (Fulfilled a, w')
       | (Rejected e, w') => f e w'
       end.

(** A promise nobody awaits: its effects happen, its outcome is dropped. *)
Definition detach {A} (p : Task A) : Task () :=
  λ w, (Fulfilled (), (p w).2).

(** [Promise.all] over promises that are all already started: every one
    runs; the result rejects with the first rejection, if any. *)
Fixpoint promise_all {A} (ps : list (Task A)) : Task (list A) :=
  match ps with
  | [] => resolve []
  | p :: ps' => λ w,
      let '(r, w1) := p w in
      let '(rs, w2) := promise_all ps' w1 in
      (match r, rs with
       | Fulfilled a, Fulfilled l => Fulfilled (a :: l)
       | Rejected e, _ => Rejected e
       | Fulfilled _, Rejected e => Rejected e
       end, w2)
  end.

#[export] Instance task_ret : MRet Task := @resolve.
#[export] Instance task_bind : MBind Task := λ A B f p, and_then p f.

Definition record (e : Event) (w : World) : World :=
  {| caches := caches w; events := events w ++ [e] |}.

Definition with_caches (s : Store) (w : World) : World :=
  {| caches := s; events := events w |}.

Definition emit (e : Event) : Task () := λ w, (Fulfilled (), record e w).

Definition console_log (args : list string) : Task () :=
  emit (ConsoleLog args).

Definition error_text (e : JsError) : string :=
  match e with
  | TypeError m => "TypeError: " +:+ m
  | DOMException m => "DOMException: " +:+ m
  end.

(** ** The store *)

(** First stored response for a key, searching the caches in order. *)
Fixpoint store_match (s : Store) (key : string) : option Response :=
  match s with
  | [] => None
  | (_, c) :: s' =>
      match c !! key with
      | Some r => Some r
      | None => store_match s' key
      end
  end.

Definition store_names (s : Store) : list string := s.*1.

Definition store_has (s : Store) (name : string) : bool :=
  bool_decide (name ∈ store_names s).

Definition store_open (s : Store) (name : string) : Store :=
  if store_has s name then s else s ++ [(name, ∅)].

Definition store_put (s : Store) (name key : string) (r : Response) : Store :=
  (λ nc, if decide (nc.1 = name) then (nc.1, <[key := r]> nc.2) else nc) <$> s.

Definition store_delete (s : Store) (name : string) : Store :=
  filter (λ nc, nc.1 ≠ name) s.

Fixpoint store_get (s : Store) (name : string) : option Cache :=
  match s with
  | [] => None
  | (n, c) :: s' => if decide (n = name) then Some c else store_get s' name
  end.

(** The response a named cache holds for a key. *)
Definition stored_in (s : Store) (name key : string) : option Response :=
  store_get s name ≫= λ c, c !! key.

(** No stored key is an extension-scheme URL: [cache.put] and
    [cache.addAll] refuse every scheme but http and https. *)
Definition store_wf (s : Store) : Prop :=
  Forall (λ nc, map_Forall
                  (λ k _, String.prefix "chrome-extension://" k = false) nc.2) s.

#[export] Instance store_wf_dec s : Decision (store_wf s).
Proof. unfold store_wf. apply _. Defined.

(** ** Host primitives *)

Section handlers.
Context (cfg : Config) (h : Host).

(** [fetch(request)] *)
Definition fetch (req : Request) : Task (option Response) :=
  λ w, (net h req, record (NetFetch req) w).

(** [caches.match(request)]: the first match over all caches. *)
Definition caches_match (key : string) : Task (option Response) :=
  λ w, match match_fault h key with
       | Some e => (Rejected e, w)
       | None => (Fulfilled (store_match (caches w) key), w)
       end.

(** [caches.open(name)]: creates the cache when absent; the handle is
    the name. *)
Definition caches_open (name : string) : Task string :=
  λ w, match open_fault h name with
       | Some e => (Rejected e, w)
       | None =>
           (Fulfilled name, with_caches (store_open (caches w) name) w)
       end.

(** [cache.put(request, response)] *)
Definition cache_put (cache key : string) (r : Response) : Task () :=
  λ w, let w := record (CachePut cache key r) w in
       match put_fault h cache key with
       | Some e => (Rejected e, w)
       | None => (Fulfilled (), with_caches (store_put (caches w) cache key r) w)
       end.

(** [caches.keys()] *)
Definition caches_keys : Task (list string) :=
  λ w, match keys_fault h with
       | Some e => (Rejected e, w)
       | None => (Fulfilled (store_names (caches w)), w)
       end.

(** [caches.delete(name)]: resolves to whether the cache existed. *)
Definition caches_delete (name : string) : Task bool :=
  λ w, let w := record (CacheDelete name) w in
       match delete_fault h name with
       | Some e => (Rejected e, w)
       | None =>
           (Fulfilled (store_has (caches w) name),
            with_caches (store_delete (caches w) name) w)
       end.

(** The request [cache.addAll] builds from a URL string. *)
Definition request_of (u : string) : Request :=
  {| method := "GET"; url := u; mode := "cors" |}.

(** [response.ok] *)
Definition ok (r : Response) : bool :=
  bool_decide (200 ≤ status r ≤ 299)%Z.

Definition fetchable (u : string) : bool :=
  match net h (request_of u) with
  | Fulfilled (Some r) => ok r
  | _ => false
  end.

(** [cache.addAll(urls)]: fetches every URL; stores all of them, or, when
    one fetch fails or answers outside 200..299, stores none and rejects. *)
Definition cache_addAll (cache : string) (urls : list string) : Task () :=
  λ w, let w := foldl (λ w u, record (NetFetch (request_of u)) w) w urls in
       if forallb fetchable urls then
         match head (omap (put_fault h cache) urls) with
         | Some e => (Rejected e, w)
         | None =>
             (Fulfilled (),
              with_caches
                (foldl (λ s u, match net h (request_of u) with
                               | Fulfilled (Some r) => store_put s cache u r
                               | _ => s
                               end) (caches w) urls) w)
         end
       else (Rejected (TypeError "Failed to execute addAll on Cache: Request failed"), w).

(** [self.skipWaiting()] and [self.clients.claim()] *)
Definition skipWaiting : Task () := emit SkipWaiting.
Definition clients_claim : Task () := emit ClientsClaim.

(** ** The handlers of sw.js *)

(** The promise the install handler passes to [event.waitUntil]. *)
Definition on_install : Task () :=
  console_log ["[SW] Installing service worker"];;
  catch
    ((caches_open (STATIC_CACHE cfg) ≫= λ cache,
        console_log ["[SW] Caching core assets"];;
        cache_addAll cache (CORE_ASSETS cfg))
     ≫= λ _,
        console_log ["[SW] Core assets cached"];;
        skipWaiting)
    (λ error,
       console_log ["[SW] Cache installation failed:"; error_text error]).

(** The callback of [cacheNames.map] in the activate handler: it answers
    [undefined] ([None]) for a current cache and the promise of
    [caches.delete] for any other. *)
Definition delete_if_old (cacheName : string) : Task (option bool) :=
  if decide (cacheName ≠ CACHE_NAME cfg ∧ cacheName ≠ STATIC_CACHE cfg)
  then console_log ["[SW] Deleting old cache:"; cacheName];;
       (caches_delete cacheName ≫= λ b, resolve (Some b))
  else resolve None.

(** The promise the activate handler passes to [event.waitUntil]. *)
Definition on_activate : Task () :=
  console_log ["[SW] Activating service worker"];;
  (caches_keys ≫= λ cacheNames,
     promise_all (delete_if_old <$> cacheNames))
  ≫= λ _,
     console_log ["[SW] Service worker activated"];;
     clients_claim.

(** The promise the fetch handler passes to [event.respondWith]. *)
Definition respond (req : Request) : Task (option Response) :=
  caches_match (url req) ≫= λ cachedResponse,
    match cachedResponse with
    | Some _ =>
        console_log ["[SW] Serving from cache:"; url req];;
        resolve cachedResponse
    | None =>
        console_log ["[SW] Fetching from network:"; url req];;
        catch
          (fetch req ≫= λ response,
             match response with
             | None => resolve response
             | Some r =>
                 if decide (status r ≠ 200%Z ∨ type r ≠ "basic")
                 then resolve response
                 else
                   let responseToCache := r in
                   detach (caches_open (CACHE_NAME cfg) ≫= λ cache,
                             detach (cache_put cache (url req) responseToCache));;
                   resolve response
             end)
          (λ error,
             console_log ["[SW] Network fetch failed:"; error_text error];;
             if decide (mode req = "navigate")
             then caches_match "/"
             else throw error)
    end.

(** What the fetch handler does with the event: it returns without
    answering, or answers with a promise. *)
Inductive Interception :=
  | PassThrough
  | RespondWith (p : Settled (option Response)).

Definition on_fetch (req : Request) (w : World) : Interception * World :=
  if decide (method req ≠ "GET") then (PassThrough, w)
  else if String.prefix "chrome-extension://" (url req) then (PassThrough, w)
  else let '(p, w') := respond req w in (RespondWith p, w').

(** What the page gets for a request: the handler's answer, or the
    host's own network fetch when the handler did not answer. *)
Definition dispatch_fetch (req : Request) : Task (option Response) :=
  λ w, match on_fetch req w with
       | (PassThrough, w') => fetch req w'
       | (RespondWith p, w') => (p, w')
       end.

End handlers.

(** The worker's lifecycle states; the host moves an installing worker on
    according to how the promise given to [waitUntil] settled. *)
Inductive WorkerState :=
  | Installing
  | Installed
  | Activating
  | Activated
  | Redundant.

Definition after_install (p : Settled ()) : WorkerState :=
  match p with
  | Fulfilled _ => Installed
  | Rejected _ => Redundant
  end.

(** The requests the fetch handler answers itself. *)
Definition intercepted (req : Request) : Prop :=
  method req = "GET" ∧ String.prefix "chrome-extension://" (url req) = false.

#[export] Instance intercepted_dec req : Decision (intercepted req).
Proof. unfold intercepted. apply _. Defined.

(** [es] is what a run from [w] to [w'] added to the log. *)
Definition emitted (w w' : World) (es : list Event) : Prop :=
  events w' = events w ++ es.

Definition is_fetch (e : Event) : Prop :=
  match e with NetFetch _ => True | _ => False end.

Definition is_put (e : Event) : Prop :=
  match e with CachePut _ _ _ => True | _ => False end.

(** What makes a network response one the handler stores. *)
Definition storable (req : Request) (resp : option Response) : Prop :=
  method req = "GET" ∧
  match resp with
  | Some r => status r = 200%Z ∧ type r = "basic"
  | None => False
  end.

#[export] Instance storable_dec req resp : Decision (storable req resp).
Proof. unfold storable. destruct resp; apply _. Defined.

(** The world once the handler has missed in the store and asked the
    network. *)
Definition asked_network (req : Request) (w : World) : World :=
  record (NetFetch req)
    (record (ConsoleLog ["[SW] Fetching from network:"; url req]) w).

(** The world once the network failure has been logged. *)
Definition logged_failure (req : Request) (e : JsError) (w : World) : World :=
  record (ConsoleLog ["[SW] Network fetch failed:"; error_text e])
    (asked_network req w).

(** The unawaited write of the response into the dynamic cache. *)
Definition write_through (cfg : Config) (h : Host)
    (req : Request) (r : Response) (w : World) : World :=
  (detach (caches_open h (CACHE_NAME cfg) ≫= λ cache,
             detach (cache_put h cache (url req) r)) w).2.

(** A cache name the activate handler keeps. *)
Definition current (cfg : Config) (n : string) : Prop :=
  n = CACHE_NAME cfg ∨ n = STATIC_CACHE cfg.

(** A cache name the activate handler asks the store to delete. *)
Definition old (cfg : Config) (n : string) : Prop :=
  n ≠ CACHE_NAME cfg ∧ n ≠ STATIC_CACHE cfg.

(** An old cache whose delete the store carries out. *)
Definition removable (cfg : Config) (h : Host) (n : string) : Prop :=
  old cfg n ∧ delete_fault h n = None.

(** ** Sample hosts, worlds and requests *)

Definition shell : Response :=
  {| status := 200; type := "basic"; body := "<html>pre prd</html>" |}.

Definition offline_error : JsError := TypeError "Failed to fetch".
Definition quota_error : JsError := DOMException "QuotaExceededError".

Definition host_online : Host := {|
  net := λ _, Fulfilled (Some shell);
  match_fault := λ _, None;
  open_fault := λ _, None;
  put_fault := λ _ _, None;
  delete_fault := λ _, None;
  keys_fault := None
|}.

Definition host_offline : Host := {|
  net := λ _, Rejected offline_error;
  match_fault := λ _, None;
  open_fault := λ _, None;
  put_fault := λ _ _, None;
  delete_fault := λ _, None;
  keys_fault := None
|}.

Definition host_read_fault : Host := {|
  net := λ _, Fulfilled (Some shell);
  match_fault := λ _, Some quota_error;
  open_fault := λ _, None;
  put_fault := λ _ _, None;
  delete_fault := λ _, None;
  keys_fault := None
|}.

Definition host_delete_fault : Host := {|
  net := λ _, Fulfilled (Some shell);
  match_fault := λ _, None;
  open_fault := λ _, None;
  put_fault := λ _ _, None;
  delete_fault := λ n, if decide (n = "pre-prd-v0") then Some quota_error else None;
  keys_fault := None
|}.

Definition world_empty : World := {| caches := []; events := [] |}.

Definition world_installed : World := {|
  caches := [("pre-prd-static-v1", {["/" := shell]})];
  events := []
|}.

Definition world_upgraded : World := {|
  caches := [("pre-prd-v0", {["/drafts" := shell]});
             ("pre-prd-static-v0", {["/" := shell]});
             ("pre-prd-static-v1", {["/" := shell]});
             ("pre-prd-v1", ∅)];
  events := []
|}.

Definition get_root : Request :=
  {| method := "GET"; url := "/"; mode := "navigate" |}.
Definition get_settings : Request :=
  {| method := "GET"; url := "/settings"; mode := "navigate" |}.
Definition get_script : Request :=
  {| method := "GET"; url := "/assets/app.js"; mode := "no-cors" |}.
Definition post_form : Request :=
  {| method := "POST"; url := "/drafts"; mode := "navigate" |}.

(** ** The push handler *)

Module Notification.

(** The [data] member of the options the push handler builds. *)
Record Data := mkData {
  dateOfArrival : Z;
  primaryKey : Z
}.

(** The options the push handler gives to [showNotification]. *)
Record Options := mkOptions {
  body : string;
  icon : string;
  badge : string;
  vibrate : list Z;
  data : Data
}.

(** A call of [self.registration.showNotification(title, options)]. *)
Record Shown := mkShown {
  title : string;
  options : Options
}.

End Notification.

(** The [push] handler.  [payload] is [event.data] ([None] for a push
    without data, else the text [event.data.text()] answers) and [now] is
    what [Date.now()] answers.  The result is the [showNotification] call
    whose promise the handler gives to [event.waitUntil], if any. *)
Definition on_push (payload : option string) (now : Z) :
    option Notification.Shown :=
  match payload with
  | Some text =>
      let options := {|
        Notification.body := text;
        Notification.icon := "/assets/favicon.svg";
        Notification.badge := "/assets/favicon.svg";
        Notification.vibrate := [100; 50; 100]%Z;
        Notification.data := {|
          Notification.dateOfArrival := now;
          Notification.primaryKey := 1
        |}
      |} in
      Some {| Notification.title := "pre prd";
              Notification.options := options |}
  | None => None
  end.

(** ** Derived notions for the lifecycle *)

#[export] Instance is_fetch_dec e : Decision (is_fetch e).
Proof. destruct e; simpl; apply _. Defined.

#[export] Instance is_put_dec e : Decision (is_put e).
Proof. destruct e; simpl; apply _. Defined.

Definition is_delete (e : Event) : Prop :=
  match e with CacheDelete _ => True | _ => False end.

#[export] Instance is_delete_dec e : Decision (is_delete e).
Proof. destruct e; simpl; apply _. Defined.

(** Everything the install handler needs from the host goes well: the
    static cache opens, every manifest entry is fetched with an ok status,
    and the store accepts every entry. *)
Definition install_ok (cfg : Config) (h : Host) : Prop :=
  open_fault h (STATIC_CACHE cfg) = None ∧
  forallb (fetchable h) (CORE_ASSETS cfg) = true ∧
  head (omap (put_fault h (STATIC_CACHE cfg)) (CORE_ASSETS cfg)) = None.

#[export] Instance install_ok_dec cfg h : Decision (install_ok cfg h).
Proof. unfold install_ok. apply _. Defined.

(** What the network holds for a URL that [cache.addAll] would store. *)
Definition fetched (h : Host) (u : string) : option Response :=
  match net h (request_of u) with
  | Fulfilled (Some r) => Some r
  | _ => None
  end.

(** What the callbacks of the activate handler log for a list of cache
    names: one line and one [caches.delete] per old name, in order. *)
Definition delete_calls (cfg : Config) (ns : list string) : list Event :=
  flat_map (λ n, if decide (old cfg n)
                 then [ConsoleLog ["[SW] Deleting old cache:"; n];
                       CacheDelete n]
                 else []) ns.

(** The store once [cache.addAll] has put every fetched entry. *)
Definition put_all (h : Host) (name : string) (s : Store)
    (urls : list string) : Store :=
  foldl (λ s u, match net h (request_of u) with
                | Fulfilled (Some r) => store_put s name u r
                | _ => s
                end) s urls.

(** The host dispatching fetch events one after the other. *)
Fixpoint dispatch_all (cfg : Config) (h : Host) (reqs : list Request)
    (w : World) : list (Settled (option Response)) * World :=
  match reqs with
  | [] => ([], w)
  | req :: reqs' =>
      let '(p, w1) := dispatch_fetch cfg h req w in
      let '(ps, w2) := dispatch_all cfg h reqs' w1 in
      (p :: ps, w2)
  end.

(** More sample hosts and inputs. *)
Definition not_found : Response :=
  {| status := 404; type := "basic"; body := "Not Found" |}.

Definition host_not_found : Host := {|
  net := λ _, Fulfilled (Some not_found);
  match_fault := λ _, None;
  open_fault := λ _, None;
  put_fault := λ _ _, None;
  delete_fault := λ _, None;
  keys_fault := None
|}.

Definition host_quota : Host := {|
  net := λ _, Fulfilled (Some shell);
  match_fault := λ _, None;
  open_fault := λ _, None;
  put_fault := λ _ _, Some quota_error;
  delete_fault := λ _, None;
  keys_fault := None
|}.

Definition host_keys_fault : Host := {|
  net := λ _, Fulfilled (Some shell);
  match_fault := λ _, None;
  open_fault := λ _, None;
  put_fault := λ _ _, None;
  delete_fault := λ _, None;
  keys_fault := Some quota_error
|}.

Definition host_root_fault : Host := {|
  net := λ _, Rejected offline_error;
  match_fault := λ k, if decide (k = "/") then Some quota_error else None;
  open_fault := λ _, None;
  put_fault := λ _ _, None;
  delete_fault := λ _, None;
  keys_fault := None
|}.

Definition get_extension : Request :=
  {| method := "GET"; url := "chrome-extension://abc/inject.js";
     mode := "no-cors" |}.

(** ** The unawaited write, by schedule *)

(** An unawaited promise that has not run yet: so far nothing has
    happened. *)
Definition postpone {A} (p : Task A) : Task () := resolve ().

(** The promise the fetch handler passes to [event.respondWith], over
    what has become of the unawaited [caches.open(...).then(...)] of
    lines 97-99 when the answer is delivered: with [detach] it has run
    to its end (this is [respond]), with [postpone] it has not started. *)
Definition respond_sched (cfg : Config) (h : Host)
    (spawn : Task () → Task ()) (req : Request) : Task (option Response) :=
  caches_match h (url req) ≫= λ cachedResponse,
    match cachedResponse with
    | Some _ =>
        console_log ["[SW] Serving from cache:"; url req];;
        resolve cachedResponse
    | None =>
        console_log ["[SW] Fetching from network:"; url req];;
        catch
          (fetch h req ≫= λ response,
             match response with
             | None => resolve response
             | Some r =>
                 if decide (status r ≠ 200%Z ∨ type r ≠ "basic")
                 then resolve response
                 else
                   let responseToCache := r in
                   spawn (caches_open h (CACHE_NAME cfg) ≫= λ cache,
                            detach (cache_put h cache (url req)
                                      responseToCache));;
                   resolve response
             end)
          (λ error,
             console_log ["[SW] Network fetch failed:"; error_text error];;
             if decide (mode req = "navigate")
             then caches_match h "/"
             else throw error)
    end.

(** What the page gets for a request, and the world at that moment, on
    the given schedule of the unawaited write. *)
Definition dispatch_sched (cfg : Config) (h : Host)
    (spawn : Task () → Task ()) (req : Request) : Task (option Response) :=
  λ w, if decide (method req ≠ "GET") then fetch h req w
       else if String.prefix "chrome-extension://" (url req) then fetch h req w
       else respond_sched cfg h spawn req w.

(** * Facts about the store *)

Section store_facts.
Implicit Types (s : Store) (name key : string) (r : Response).

Lemma store_match_Some s key r :
  store_match s key = Some r → ∃ name c, (name, c) ∈ s ∧ c !! key = Some r.
Proof.
  induction s as [|[n c] s IH]; simpl; [done|].
  destruct (c !! key) as [r'|] eqn:Hc.
  - intros [= ->]. exists n, c. split; [left | done].
  - intros (name & c' & Hin & Hk)%IH. exists name, c'. split; [by right | done].
Qed.

Lemma store_match_app s1 s2 key :
  store_match (s1 ++ s2) key =
  match store_match s1 key with
  | Some r => Some r
  | None => store_match s2 key
  end.
Proof.
  induction s1 as [|[n c] s1 IH]; simpl; [done|].
  by destruct (c !! key).
Qed.

Lemma store_match_open s name key :
  store_match (store_open s name) key = store_match s key.
Proof.
  unfold store_open. destruct (store_has s name); [done|].
  rewrite store_match_app. simpl. rewrite lookup_empty.
  by destruct (store_match s key).
Qed.

Lemma store_names_open s name : name ∈ store_names (store_open s name).
Proof.
  unfold store_open, store_has. case_bool_decide; [done|].
  unfold store_names. rewrite fmap_app. apply elem_of_app. right. by left.
Qed.

Lemma store_match_put_fresh s name key r :
  store_match s key = None →
  name ∈ store_names s →
  store_match (store_put s name key r) key = Some r.
Proof.
  induction s as [|[n c] s IH]; simpl.
  - intros _ Hin. by apply elem_of_nil in Hin.
  - destruct (c !! key) eqn:Hc; [done|]. intros Hs Hin.
    destruct (decide (n = name)) as [->|Hne]; simpl.
    + by rewrite lookup_insert_eq.
    + rewrite Hc. apply IH; [done|].
      apply elem_of_cons in Hin as [?|?]; [congruence | done].
Qed.

Lemma stored_in_put s name key r :
  name ∈ store_names s → stored_in (store_put s name key r) name key = Some r.
Proof.
  unfold stored_in. induction s as [|[n c] s IH]; simpl.
  - intros Hin. by apply elem_of_nil in Hin.
  - intros Hin. destruct (decide (n = name)) as [->|Hne]; simpl.
    + rewrite decide_True by done. simpl. by rewrite lookup_insert_eq.
    + rewrite decide_False by done. apply IH.
      apply elem_of_cons in Hin as [?|?]; [congruence | done].
Qed.

Lemma store_wf_match s key r :
  store_wf s → store_match s key = Some r →
  String.prefix "chrome-extension://" key = false.
Proof.
  intros Hwf (name & c & Hin & Hk)%store_match_Some.
  unfold store_wf in Hwf. rewrite Forall_forall in Hwf.
  by apply (Hwf _ Hin key r).
Qed.

Lemma store_wf_open s name : store_wf s → store_wf (store_open s name).
Proof.
  unfold store_open. destruct (store_has s name); [done|].
  intros Hwf. apply Forall_app. split; [done|].
  apply Forall_singleton. apply map_Forall_empty.
Qed.

Lemma store_wf_put s name key r :
  String.prefix "chrome-extension://" key = false →
  store_wf s → store_wf (store_put s name key r).
Proof.
  intros Hk Hwf. unfold store_put, store_wf. apply Forall_fmap.
  eapply Forall_impl; [exact Hwf|]. intros [n c] Hc. simpl in *.
  destruct (decide (n = name)); simpl; [|done].
  by apply map_Forall_insert_2.
Qed.

Lemma store_wf_delete s name : store_wf s → store_wf (store_delete s name).
Proof.
  unfold store_wf, store_delete. rewrite !Forall_forall.
  intros Hwf x [_ Hin]%list_elem_of_filter. by apply Hwf.
Qed.

End store_facts.

(** * The fetch handler, case by case *)

Ltac task_unfold :=
  unfold mbind, task_bind, and_then, catch, detach, resolve, throw,
    console_log, emit, fetch, caches_match, caches_open, cache_put,
    skipWaiting, clients_claim in *.

Section fetch_facts.
Context (cfg : Config) (h : Host).
Implicit Types (req : Request) (w : World) (r : Response) (e : JsError).

Lemma on_fetch_pass req w :
  ¬ intercepted req → on_fetch cfg h req w = (PassThrough, w).
Proof.
  unfold intercepted, on_fetch. intros Hni.
  destruct (decide (method req ≠ "GET")); [done|].
  destruct (String.prefix "chrome-extension://" (url req)) eqn:Hp; [done|].
  exfalso. apply Hni. split; [|done].
  by destruct (decide (method req = "GET")).
Qed.

Lemma on_fetch_respond req w :
  intercepted req →
  on_fetch cfg h req w =
    (RespondWith (respond cfg h req w).1, (respond cfg h req w).2).
Proof.
  unfold on_fetch. intros [Hm Hp].
  rewrite decide_False by (intros Hne; by apply Hne).
  rewrite Hp. by destruct (respond cfg h req w).
Qed.

Lemma respond_read_fault req w e :
  match_fault h (url req) = Some e → respond cfg h req w = (Rejected e, w).
Proof. intros Hf. unfold respond. task_unfold. by rewrite Hf. Qed.

Lemma respond_hit req w r :
  match_fault h (url req) = None →
  store_match (caches w) (url req) = Some r →
  respond cfg h req w =
    (Fulfilled (Some r),
     record (ConsoleLog ["[SW] Serving from cache:"; url req]) w).
Proof. intros Hf Hs. unfold respond. task_unfold. by rewrite Hf, Hs. Qed.

Lemma respond_miss_pass req w (resp : option Response) :
  match_fault h (url req) = None →
  store_match (caches w) (url req) = None →
  net h req = Fulfilled resp →
  (∀ r, resp = Some r → status r ≠ 200%Z ∨ type r ≠ "basic") →
  respond cfg h req w = (Fulfilled resp, asked_network req w).
Proof.
  intros Hf Hs Hn Hr. unfold respond, asked_network. task_unfold.
  rewrite Hf, Hs. simpl. rewrite Hn.
  destruct resp as [r|]; [|done].
  by rewrite decide_True by by apply Hr.
Qed.

Lemma respond_miss_store req w r :
  match_fault h (url req) = None →
  store_match (caches w) (url req) = None →
  net h req = Fulfilled (Some r) →
  status r = 200%Z → type r = "basic" →
  respond cfg h req w =
    (Fulfilled (Some r), write_through cfg h req r (asked_network req w)).
Proof.
  intros Hf Hs Hn Hst Hty.
  unfold respond, write_through, asked_network. task_unfold.
  rewrite Hf, Hs. simpl. rewrite Hn.
  rewrite decide_False by (intros [?|?]; done).
  done.
Qed.

Lemma respond_offline_navigate req w e :
  match_fault h (url req) = None →
  store_match (caches w) (url req) = None →
  net h req = Rejected e →
  mode req = "navigate" →
  respond cfg h req w = caches_match h "/" (logged_failure req e w).
Proof.
  intros Hf Hs Hn Hm. unfold respond, logged_failure, asked_network.
  task_unfold. rewrite Hf, Hs. simpl. rewrite Hn.
  by rewrite decide_True by done.
Qed.

Lemma respond_offline_subresource req w e :
  match_fault h (url req) = None →
  store_match (caches w) (url req) = None →
  net h req = Rejected e →
  mode req ≠ "navigate" →
  respond cfg h req w = (Rejected e, logged_failure req e w).
Proof.
  intros Hf Hs Hn Hm. unfold respond, logged_failure, asked_network.
  task_unfold. rewrite Hf, Hs. simpl. rewrite Hn.
  by rewrite decide_False by done.
Qed.

(** The unawaited write adds at most one [CachePut] to the log, for the
    dynamic cache and the request's own URL. *)
Lemma write_through_events req r w :
  events (write_through cfg h req r w) = events w ∨
  events (write_through cfg h req r w) =
    events w ++ [CachePut (CACHE_NAME cfg) (url req) r].
Proof.
  unfold write_through. task_unfold.
  destruct (open_fault h (CACHE_NAME cfg)); simpl; [by left|].
  destruct (put_fault h (CACHE_NAME cfg) (url req)); simpl; by right.
Qed.

Lemma write_through_ok req r w :
  open_fault h (CACHE_NAME cfg) = None →
  put_fault h (CACHE_NAME cfg) (url req) = None →
  write_through cfg h req r w =
    with_caches
      (store_put (store_open (caches w) (CACHE_NAME cfg))
         (CACHE_NAME cfg) (url req) r)
      (record (CachePut (CACHE_NAME cfg) (url req) r) w).
Proof.
  intros Ho Hp. unfold write_through. task_unfold.
  rewrite Ho. simpl. by rewrite Hp.
Qed.

End fetch_facts.

(** * The claims about the fetch handler *)

Section fetch_claims.
Context (cfg : Config) (h : Host).
Implicit Types (req : Request) (w : World) (r : Response) (e : JsError).

Lemma dispatch_respond req w :
  intercepted req → dispatch_fetch cfg h req w = respond cfg h req w.
Proof.
  intros Hi. unfold dispatch_fetch. rewrite on_fetch_respond by done.
  by destruct (respond cfg h req w).
Qed.

Lemma dispatch_pass req w :
  ¬ intercepted req →
  dispatch_fetch cfg h req w = (net h req, record (NetFetch req) w).
Proof.
  intros Hi. unfold dispatch_fetch. by rewrite on_fetch_pass by done.
Qed.

Lemma stored_key_intercepted req w r :
  method req = "GET" → store_wf (caches w) →
  store_match (caches w) (url req) = Some r → intercepted req.
Proof. intros Hm Hwf Hs. split; [done|]. by eapply store_wf_match. Qed.

(** C1: a GET request whose URL has a stored match in some cache is
    answered by the handler with that stored response; the store is left
    as it was and nothing the run adds to the log is a network fetch. *)
Theorem C1_cache_hit_is_exclusive_answer req w r :
  method req = "GET" →
  store_wf (caches w) →
  match_fault h (url req) = None →
  store_match (caches w) (url req) = Some r →
  ∃ w' es,
    on_fetch cfg h req w = (RespondWith (Fulfilled (Some r)), w') ∧
    dispatch_fetch cfg h req w = (Fulfilled (Some r), w') ∧
    caches w' = caches w ∧
    emitted w w' es ∧ Forall (λ ev, ¬ is_fetch ev) es.
Proof.
  intros Hm Hwf Hf Hs.
  assert (Hi : intercepted req) by by eapply stored_key_intercepted.
  eexists _, [ConsoleLog ["[SW] Serving from cache:"; url req]].
  rewrite on_fetch_respond, dispatch_respond by done.
  rewrite (respond_hit cfg h req w r) by done. simpl.
  repeat split. apply Forall_singleton. by intros [].
Qed.

(** On the schedule where the unawaited write has run when the answer
    is delivered, [respond_sched] and [dispatch_sched] are the handler. *)
Lemma respond_sched_detach req : respond_sched cfg h detach req = respond cfg h req.
Proof. reflexivity. Qed.

Lemma dispatch_sched_detach req w :
  dispatch_sched cfg h detach req w = dispatch_fetch cfg h req w.
Proof.
  unfold dispatch_sched, dispatch_fetch, on_fetch.
  destruct (decide (method req ≠ "GET")); [done|].
  destruct (String.prefix "chrome-extension://" (url req)); [done|].
  rewrite respond_sched_detach. by destruct (respond cfg h req w).
Qed.

(** The answer to a storable response, delivered with the write still to
    run: the store is as it was. *)
Lemma dispatch_postponed_store req w r :
  intercepted req →
  match_fault h (url req) = None →
  store_match (caches w) (url req) = None →
  net h req = Fulfilled (Some r) →
  status r = 200%Z → type r = "basic" →
  dispatch_sched cfg h postpone req w =
    (Fulfilled (Some r), asked_network req w).
Proof.
  intros [Hm Hp] Hf Hs Hn Hst Hty.
  unfold dispatch_sched, respond_sched, asked_network, postpone.
  rewrite decide_False by (intros Hne; by apply Hne). rewrite Hp.
  task_unfold. rewrite Hf, Hs. simpl. rewrite Hn.
  by rewrite decide_False by (intros [?|?]; done).
Qed.

(** C3, as the code has it: an intercepted request with no stored match
    that the network answers with status 200 and type basic is answered
    with that response while the write into the dynamic cache is still
    to run, the store being as it was.  Once that unawaited write has
    completed, open and put succeeding, the dynamic cache holds the
    response under the request's URL, and the same request issued then
    is answered with it from the store, with no network fetch. *)
Theorem C3_round_trip_once_write_completed req w r :
  intercepted req →
  match_fault h (url req) = None →
  store_match (caches w) (url req) = None →
  net h req = Fulfilled (Some r) →
  status r = 200%Z → type r = "basic" →
  open_fault h (CACHE_NAME cfg) = None →
  put_fault h (CACHE_NAME cfg) (url req) = None →
  ∃ wd w1 w2 es,
    dispatch_sched cfg h postpone req w = (Fulfilled (Some r), wd) ∧
    caches wd = caches w ∧
    w1 = write_through cfg h req r wd ∧
    dispatch_fetch cfg h req w = (Fulfilled (Some r), w1) ∧
    stored_in (caches w1) (CACHE_NAME cfg) (url req) = Some r ∧
    dispatch_fetch cfg h req w1 = (Fulfilled (Some r), w2) ∧
    caches w2 = caches w1 ∧
    emitted w1 w2 es ∧ Forall (λ ev, ¬ is_fetch ev) es.
Proof.
  intros Hi Hf Hs Hn Hst Hty Ho Hp.
  set (w1 := write_through cfg h req r (asked_network req w)).
  assert (Hc1 : caches w1 =
                store_put (store_open (caches w) (CACHE_NAME cfg))
                  (CACHE_NAME cfg) (url req) r).
  { unfold w1. by rewrite write_through_ok by done. }
  assert (Hs1 : store_match (caches w1) (url req) = Some r).
  { rewrite Hc1. apply store_match_put_fresh.
    - by rewrite store_match_open.
    - apply store_names_open. }
  exists (asked_network req w), w1.
  eexists _, [ConsoleLog ["[SW] Serving from cache:"; url req]].
  rewrite (dispatch_postponed_store req w r) by done.
  rewrite !dispatch_respond by done.
  rewrite (respond_miss_store cfg h req w r) by done. fold w1.
  rewrite (respond_hit cfg h req w1 r) by done. simpl.
  split_and!; try done.
  - rewrite Hc1. apply stored_in_put, store_names_open.
  - apply Forall_singleton. by intros [].
Qed.

(** While the write is still to run, the same request misses in the
    store and the handler asks the network again. *)
Lemma pending_write_misses req w r :
  intercepted req →
  match_fault h (url req) = None →
  store_match (caches w) (url req) = None →
  net h req = Fulfilled (Some r) →
  status r = 200%Z → type r = "basic" →
  ∃ wd es,
    dispatch_sched cfg h postpone req w = (Fulfilled (Some r), wd) ∧
    store_match (caches wd) (url req) = None ∧
    emitted wd (dispatch_fetch cfg h req wd).2 es ∧
    NetFetch req ∈ es.
Proof.
  intros Hi Hf Hs Hn Hst Hty. exists (asked_network req w).
  rewrite (dispatch_postponed_store req w r) by done.
  rewrite dispatch_respond by done.
  rewrite (respond_miss_store cfg h req (asked_network req w) r) by done.
  unfold emitted. simpl.
  destruct (write_through_events cfg h req r
              (asked_network req (asked_network req w))) as [->| ->].
  - exists [ConsoleLog ["[SW] Fetching from network:"; url req];
            NetFetch req].
    split_and!; try done.
    + simpl. by rewrite <- !app_assoc.
    + right. by left.
  - exists [ConsoleLog ["[SW] Fetching from network:"; url req];
            NetFetch req; CachePut (CACHE_NAME cfg) (url req) r].
    split_and!; try done.
    + simpl. by rewrite <- !app_assoc.
    + right. by left.
Qed.

(** C6: an intercepted navigation request with no stored match whose
    network fetch rejects is answered with the response stored for the
    root document, not with the error. *)
Theorem C6_offline_navigation_gets_root req w e root :
  intercepted req →
  mode req = "navigate" →
  match_fault h (url req) = None →
  store_match (caches w) (url req) = None →
  net h req = Rejected e →
  match_fault h "/" = None →
  store_match (caches w) "/" = Some root →
  ∃ w',
    on_fetch cfg h req w = (RespondWith (Fulfilled (Some root)), w') ∧
    dispatch_fetch cfg h req w = (Fulfilled (Some root), w') ∧
    caches w' = caches w.
Proof.
  intros Hi Hm Hf Hs Hn Hf' Hroot. eexists.
  rewrite on_fetch_respond, dispatch_respond by done.
  rewrite (respond_offline_navigate cfg h req w e) by done.
  unfold caches_match. rewrite Hf'. simpl. by rewrite Hroot.
Qed.

(** C7: a request that is not a navigation, has no stored match and whose
    network fetch rejects gets that same rejection; no response is
    substituted and the store is left as it was. *)
Theorem C7_offline_subresource_propagates req w e :
  mode req ≠ "navigate" →
  match_fault h (url req) = None →
  store_match (caches w) (url req) = None →
  net h req = Rejected e →
  ∃ w',
    dispatch_fetch cfg h req w = (Rejected e, w') ∧
    (intercepted req → on_fetch cfg h req w = (RespondWith (Rejected e), w')) ∧
    caches w' = caches w.
Proof.
  intros Hm Hf Hs Hn. destruct (decide (intercepted req)) as [Hi|Hi].
  - eexists. rewrite on_fetch_respond, dispatch_respond by done.
    by rewrite (respond_offline_subresource cfg h req w e) by done.
  - eexists. rewrite dispatch_pass, Hn by done. by repeat split.
Qed.

(** C9, as the code has it: when the store lookup of an intercepted
    request fails, the handler's answer rejects with the store's error;
    the world is left as it was, so no network fetch is made. *)
Theorem C9_read_fault_rejects req w e :
  intercepted req →
  match_fault h (url req) = Some e →
  on_fetch cfg h req w = (RespondWith (Rejected e), w) ∧
  dispatch_fetch cfg h req w = (Rejected e, w).
Proof.
  intros Hi Hf. rewrite on_fetch_respond, dispatch_respond by done.
  by rewrite (respond_read_fault cfg h req w e) by done.
Qed.

(** C10: an intercepted navigation request with no stored match whose
    network fetch rejects, when the store holds nothing for the root
    document either, is answered with the empty result of that second
    lookup; the network error is not rethrown. *)
Theorem C10_offline_navigation_without_root req w e :
  intercepted req →
  mode req = "navigate" →
  match_fault h (url req) = None →
  store_match (caches w) (url req) = None →
  net h req = Rejected e →
  match_fault h "/" = None →
  store_match (caches w) "/" = None →
  ∃ w',
    on_fetch cfg h req w = (RespondWith (Fulfilled None), w') ∧
    caches w' = caches w.
Proof.
  intros Hi Hm Hf Hs Hn Hf' Hroot. eexists.
  rewrite on_fetch_respond by done.
  rewrite (respond_offline_navigate cfg h req w e) by done.
  unfold caches_match. rewrite Hf'. simpl. by rewrite Hroot.
Qed.

End fetch_claims.

Section persistence.
Context (cfg : Config) (h : Host).
Implicit Types (req : Request) (w : World) (r : Response) (e : JsError).

Lemma caches_match_world key w : (caches_match h key w).2 = w.
Proof. unfold caches_match. by destruct (match_fault h key). Qed.

Lemma storable_intro req r :
  method req = "GET" → status r = 200%Z → type r = "basic" →
  storable req (Some r).
Proof. by intros; split. Qed.

Local Ltac log_cases :=
  rewrite ?elem_of_cons, ?elem_of_nil; intuition congruence.

(** C4: over every fetch event, a [cache.put] is made only into the
    dynamic cache, under the request's URL, for a GET request and the
    network's response of status 200 and type basic; and a network
    response obtained for a request that fails one of these conditions
    reaches the caller as it is, with the store unchanged and no
    [cache.put] made. *)
Theorem C4_only_storable_responses_persisted req w p w' :
  dispatch_fetch cfg h req w = (p, w') →
  ∃ es,
    emitted w w' es ∧
    (∀ name key r, CachePut name key r ∈ es →
       name = CACHE_NAME cfg ∧ key = url req ∧
       net h req = Fulfilled (Some r) ∧ storable req (Some r)) ∧
    (caches w' ≠ caches w → ∃ r, net h req = Fulfilled (Some r) ∧
                                  storable req (Some r)) ∧
    (∀ resp, NetFetch req ∈ es → net h req = Fulfilled resp →
       ¬ storable req resp →
       p = Fulfilled resp ∧ caches w' = caches w ∧
       Forall (λ ev, ¬ is_put ev) es).
Proof.
  intros Hd. destruct (decide (intercepted req)) as [Hi|Hi].
  2:{ rewrite dispatch_pass in Hd by done. injection Hd as <- <-.
      exists [NetFetch req]. split_and!; try done.
      - intros name key r. log_cases.
      - intros resp _ Hn _. split_and!; try done.
        apply Forall_singleton. by intros []. }
  rewrite dispatch_respond in Hd by done.
  destruct (match_fault h (url req)) as [e|] eqn:Hf.
  { rewrite (respond_read_fault cfg h req w e) in Hd by done.
    injection Hd as <- <-. exists []. unfold emitted.
    rewrite app_nil_r. split_and!; try done.
    - intros name key r. log_cases.
    - intros resp. log_cases. }
  destruct (store_match (caches w) (url req)) as [r0|] eqn:Hs.
  { rewrite (respond_hit cfg h req w r0) in Hd by done.
    injection Hd as <- <-. eexists [_]. split_and!; try done.
    - intros name key r. log_cases.
    - intros resp. log_cases. }
  destruct (net h req) as [resp|e] eqn:Hn.
  - destruct (decide (storable req resp)) as [Hst|Hst].
    + destruct resp as [r|]; [|by destruct Hst].
      pose proof Hst as (Hm & Hs200 & Hty).
      rewrite (respond_miss_store cfg h req w r) in Hd by done.
      injection Hd as <- <-.
      destruct (write_through_events cfg h req r (asked_network req w))
        as [Hev|Hev].
      * eexists [_; _]. unfold emitted. rewrite Hev. simpl.
        rewrite <- !app_assoc. split_and!; try done.
        -- intros name key r'. log_cases.
        -- intros _. by exists r.
        -- by intros resp _ [= <-] Hns.
      * eexists [_; _; _]. unfold emitted. rewrite Hev. simpl.
        rewrite <- !app_assoc. split_and!; try done.
        -- intros name key r' Hin.
           assert (name = CACHE_NAME cfg ∧ key = url req ∧ r' = r)
             as (-> & -> & ->) by (revert Hin; log_cases).
           done.
        -- intros _. by exists r.
        -- by intros resp _ [= <-] Hns.
    + rewrite (respond_miss_pass cfg h req w resp) in Hd; try done.
      2:{ intros r ->. destruct (decide (status r = 200%Z)) as [?|?]; [|by left].
          destruct (decide (type r = "basic")) as [?|?]; [|by right].
          exfalso. apply Hst. destruct Hi as [Hm _].
          by apply storable_intro. }
      injection Hd as <- <-. eexists [_; _]. unfold emitted. simpl.
      rewrite <- !app_assoc. split_and!; try done.
      * intros name key r. log_cases.
      * intros resp' _ [= <-] _. split_and!; try done.
        repeat constructor; by intros [].
  - assert (Hw : w' = logged_failure req e w).
    { destruct (decide (mode req = "navigate")) as [Hm|Hm].
      - rewrite (respond_offline_navigate cfg h req w e) in Hd by done.
        rewrite <- (caches_match_world "/" (logged_failure req e w)).
        by rewrite Hd.
      - rewrite (respond_offline_subresource cfg h req w e) in Hd by done.
        by injection Hd as <- <-. }
    subst w'. eexists [_; _; _]. unfold emitted. simpl.
    rewrite <- !app_assoc. split_and!; try done.
    intros name key r. log_cases.
Qed.

End persistence.

(** * The install handler *)

Section install_facts.
Context (cfg : Config) (h : Host).
Implicit Types (w : World) (e : JsError).

Lemma ask_all_world (urls : list string) w :
  foldl (λ w u, record (NetFetch (request_of u)) w) w urls =
  {| caches := caches w;
     events := events w ++ ((λ u, NetFetch (request_of u)) <$> urls) |}.
Proof.
  revert w. induction urls as [|u urls IH]; intros w; simpl.
  - rewrite app_nil_r. by destruct w.
  - rewrite IH. simpl. by rewrite <- app_assoc.
Qed.

Lemma fetchable_all (urls : list string) :
  (∃ u, u ∈ urls ∧ fetchable h u = false) → forallb (fetchable h) urls = false.
Proof.
  intros (u & Hin & Hu). apply not_true_is_false. intros Hall.
  rewrite forallb_forall in Hall. apply list_elem_of_In in Hin.
  apply Hall in Hin. congruence.
Qed.

Lemma stored_in_open (s : Store) (name n key : string) :
  stored_in (store_open s name) n key = stored_in s n key.
Proof.
  unfold store_open, store_has, stored_in. case_bool_decide as Hin; [done|].
  induction s as [|[m c] s IH]; simpl.
  - destruct (decide (name = n)); [|done]. simpl. apply lookup_empty.
  - destruct (decide (m = n)); [done|]. apply IH.
    intros Hin'. apply Hin. simpl. by right.
Qed.

(** The install handler's promise never rejects: its [catch] ends the
    chain and only logs. *)
Lemma on_install_fulfils w : (on_install cfg h w).1 = Fulfilled ().
Proof.
  unfold on_install, cache_addAll. task_unfold. simpl.
  destruct (open_fault h (STATIC_CACHE cfg)); simpl; [done|].
  destruct (forallb (fetchable h) (CORE_ASSETS cfg)); simpl; [|done].
  by destruct (head (omap (put_fault h (STATIC_CACHE cfg)) (CORE_ASSETS cfg))).
Qed.

(** C2, as the code has it: when a manifest entry cannot be fetched, the
    rejection of [addAll] is caught and logged; the handler's promise
    fulfils, so the host moves the worker to installed; no response is
    added to any cache and [skipWaiting] is not called. *)
Theorem C2_failed_install_is_caught_and_logged w :
  (∃ u, u ∈ CORE_ASSETS cfg ∧ fetchable h u = false) →
  ∃ w' es e,
    on_install cfg h w = (Fulfilled (), w') ∧
    after_install (on_install cfg h w).1 = Installed ∧
    (∀ name key, stored_in (caches w') name key = stored_in (caches w) name key) ∧
    emitted w w' es ∧
    (SkipWaiting ∉ es) ∧
    ConsoleLog ["[SW] Cache installation failed:"; error_text e] ∈ es.
Proof.
  intros Hbad%fetchable_all.
  unfold on_install, cache_addAll, emitted. task_unfold. simpl.
  destruct (open_fault h (STATIC_CACHE cfg)) as [e|]; simpl.
  - eexists _, [_; _], e. split_and!; try done.
    + simpl. by rewrite <- app_assoc.
    + rewrite !elem_of_cons, elem_of_nil. intuition congruence.
    + apply elem_of_cons. right. by left.
  - rewrite Hbad, ask_all_world. simpl.
    eexists _,
      ([ConsoleLog ["[SW] Installing service worker"];
        ConsoleLog ["[SW] Caching core assets"]] ++
       ((λ u, NetFetch (request_of u)) <$> CORE_ASSETS cfg) ++
       [ConsoleLog ["[SW] Cache installation failed:";
                    error_text (TypeError "Failed to execute addAll on Cache: Request failed")]]), _.
    split_and!; try done.
    + intros name key. simpl. apply stored_in_open.
    + simpl. by rewrite <- !app_assoc.
    + rewrite !elem_of_app, list_elem_of_fmap, !elem_of_cons, !elem_of_nil.
      intros [[?|[?|[]]]|[(u & ? & _)|[?|[]]]]; congruence.
    + rewrite !elem_of_app. right. right. by apply list_elem_of_singleton.
Qed.

End install_facts.

(** * The activate handler *)

Section activate_facts.
Context (cfg : Config) (h : Host).
Implicit Types (w : World) (s : Store) (e : JsError) (n : string).

Lemma filter_all {A} (P : A → Prop) `{!∀ x, Decision (P x)} (l : list A) :
  (∀ x, P x) → filter P l = l.
Proof.
  intros HP. induction l as [|x l IH]; [done|].
  by rewrite filter_cons_True, IH.
Qed.

Lemma filter_ext_in {A} (P1 P2 : A → Prop)
    `{!∀ x, Decision (P1 x), !∀ x, Decision (P2 x)} (l : list A) :
  (∀ x, x ∈ l → P1 x ↔ P2 x) → filter P1 l = filter P2 l.
Proof.
  induction l as [|x l IH]; intros Hiff; [done|].
  rewrite !filter_cons, IH.
  - apply decide_ext, Hiff. by left.
  - intros y Hy. apply Hiff. by right.
Qed.

Section filtered_store.
Context (P : string → Prop) `{!∀ nc : string * Cache, Decision (P nc.1)}.

Lemma store_get_filter_keep s n :
  P n → store_get (filter (λ nc, P nc.1) s) n = store_get s n.
Proof.
  intros HP. induction s as [|[m c] s IH]; simpl; [done|].
  rewrite filter_cons. simpl. destruct (decide (m = n)) as [->|Hne].
  - rewrite decide_True by done. simpl. by rewrite decide_True.
  - case_decide; simpl; [by rewrite decide_False|done].
Qed.

Lemma store_get_filter_drop s n :
  ¬ P n → store_get (filter (λ nc, P nc.1) s) n = None.
Proof.
  intros HP. induction s as [|[m c] s IH]; simpl; [done|].
  rewrite filter_cons. simpl. case_decide as Hm; simpl; [|done].
  rewrite decide_False; [done|]. by intros ->.
Qed.

Lemma store_names_filter s n :
  n ∈ store_names (filter (λ nc, P nc.1) s) ↔ n ∈ store_names s ∧ P n.
Proof.
  unfold store_names. rewrite !list_elem_of_fmap. split.
  - intros ([m c] & -> & [HP Hin]%list_elem_of_filter). split; [|done].
    by exists (m, c).
  - intros [([m c] & -> & Hin) HP]. exists (m, c). split; [done|].
    by apply list_elem_of_filter.
Qed.

Lemma store_match_filter s key r :
  store_match (filter (λ nc, P nc.1) s) key = Some r →
  ∃ n c, (n, c) ∈ s ∧ P n ∧ c !! key = Some r.
Proof.
  intros (n & c & [HP Hin]%list_elem_of_filter & Hk)%store_match_Some.
  by exists n, c.
Qed.

End filtered_store.

(** One callback of the map: what it leaves of the store, what it logs,
    and how its promise settles. *)
Lemma delete_if_old_run n w :
  ∃ p es,
    delete_if_old cfg h n w =
      (p, {| caches := filter (λ nc, ¬ (nc.1 = n ∧ removable cfg h nc.1)) (caches w);
             events := events w ++ es |}) ∧
    (ClientsClaim ∉ es) ∧
    match p with
    | Fulfilled _ => old cfg n → delete_fault h n = None
    | Rejected _ => old cfg n ∧ is_Some (delete_fault h n)
    end.
Proof.
  unfold delete_if_old, caches_delete. task_unfold.
  destruct (decide (n ≠ CACHE_NAME cfg ∧ n ≠ STATIC_CACHE cfg)) as [Hold|Hcur].
  - simpl. destruct (delete_fault h n) as [e|] eqn:Hf; simpl.
    + exists (Rejected e),
        [ConsoleLog ["[SW] Deleting old cache:"; n]; CacheDelete n].
      split_and!.
      * unfold record. simpl. rewrite <- app_assoc. simpl.
        rewrite filter_all; [done|].
        intros [m c] [-> [_ Hm]]. simpl in *. congruence.
      * rewrite !elem_of_cons, elem_of_nil. intuition congruence.
      * done.
      * by exists e.
    + eexists (Fulfilled _),
        [ConsoleLog ["[SW] Deleting old cache:"; n]; CacheDelete n].
      split_and!.
      * unfold record, with_caches, store_delete. simpl.
        rewrite <- app_assoc. simpl. do 2 f_equal.
        apply list_filter_iff. intros [m c]. simpl. unfold removable.
        split; [intros Hne [? _]; done|].
        intros Hn ->. by apply Hn.
      * rewrite !elem_of_cons, elem_of_nil. intuition congruence.
      * done.
  - exists (Fulfilled None), []. split_and!.
    + rewrite app_nil_r. rewrite filter_all; [by destruct w|].
      intros [m c] [-> [Ho _]]. simpl in *. by apply Hcur.
    + apply not_elem_of_nil.
    + intros Ho. by destruct Hcur.
Qed.

(** [Promise.all] over the callbacks: every delete is asked for, whatever
    becomes of the others. *)
Lemma delete_all_old_run (ns : list string) w :
  ∃ p es,
    promise_all (delete_if_old cfg h <$> ns) w =
      (p, {| caches := filter (λ nc, ¬ (nc.1 ∈ ns ∧ removable cfg h nc.1)) (caches w);
             events := events w ++ es |}) ∧
    (ClientsClaim ∉ es) ∧
    match p with
    | Fulfilled _ => ∀ n, n ∈ ns → old cfg n → delete_fault h n = None
    | Rejected _ => ∃ n, n ∈ ns ∧ old cfg n ∧ is_Some (delete_fault h n)
    end.
Proof.
  revert w. induction ns as [|n ns IH]; intros w.
  - exists (Fulfilled []), []. simpl. unfold resolve. split_and!.
    + rewrite app_nil_r, filter_all; [by destruct w|].
      intros x [Hin _]. by apply elem_of_nil in Hin.
    + apply not_elem_of_nil.
    + intros n Hin. by apply elem_of_nil in Hin.
  - destruct (delete_if_old_run n w) as (p1 & es1 & Hrun1 & Hc1 & Hp1).
    set (w1 := {| caches := filter (λ nc, ¬ (nc.1 = n ∧ removable cfg h nc.1)) (caches w);
                  events := events w ++ es1 |}) in *.
    destruct (IH w1) as (p2 & es2 & Hrun2 & Hc2 & Hp2).
    eexists _, (es1 ++ es2). rewrite fmap_cons. cbn [promise_all].
    rewrite Hrun1, Hrun2. split_and!.
    + f_equal. simpl. rewrite list_filter_filter, <- app_assoc. f_equal.
      apply list_filter_iff. intros [m c]. simpl.
      rewrite elem_of_cons. tauto.
    + rewrite elem_of_app. tauto.
    + destruct p1 as [a|e1].
      * destruct p2 as [l|e2].
        -- intros m [->|Hin]%elem_of_cons; [done | by apply Hp2].
        -- destruct Hp2 as (m & Hin & Hm). exists m. split; [by right | done].
      * exists n. split; [by left | done].
Qed.

(** The whole handler, the listing of the cache names succeeding. *)
Lemma on_activate_run w :
  keys_fault h = None →
  ∃ p es,
    on_activate cfg h w =
      (p, {| caches := filter (λ nc, ¬ removable cfg h nc.1) (caches w);
             events := events w ++ es |}) ∧
    match p with
    | Fulfilled _ =>
        (∀ n, n ∈ store_names (caches w) → old cfg n → delete_fault h n = None) ∧
        ClientsClaim ∈ es
    | Rejected _ =>
        (∃ n, n ∈ store_names (caches w) ∧ old cfg n ∧ is_Some (delete_fault h n)) ∧
        ClientsClaim ∉ es
    end.
Proof.
  intros Hk. unfold on_activate, caches_keys. task_unfold. rewrite Hk. simpl.
  set (w0 := record (ConsoleLog ["[SW] Activating service worker"]) w).
  destruct (delete_all_old_run (store_names (caches w)) w0)
    as (p & es & Hrun & Hc & Hp).
  change (caches w0) with (caches w) in Hrun. rewrite Hrun.
  assert (Hfil : filter (λ nc, ¬ (nc.1 ∈ store_names (caches w) ∧ removable cfg h nc.1))
                   (caches w) =
                 filter (λ nc, ¬ removable cfg h nc.1) (caches w)).
  { apply filter_ext_in. intros x Hx. split; [|tauto].
    intros Hn Hr. apply Hn. split; [|done].
    by apply list_elem_of_fmap_2. }
  rewrite Hfil. destruct p as [l|e]; simpl.
  - exists (Fulfilled ()),
      (ConsoleLog ["[SW] Activating service worker"] :: es ++
       [ConsoleLog ["[SW] Service worker activated"]; ClientsClaim]).
    split_and!.
    + unfold emit, record. simpl. do 2 f_equal.
      by rewrite <- !app_assoc.
    + done.
    + rewrite elem_of_cons, elem_of_app, !elem_of_cons. tauto.
  - exists (Rejected e), (ConsoleLog ["[SW] Activating service worker"] :: es).
    split_and!.
    + do 2 f_equal. simpl. by rewrite <- !app_assoc.
    + done.
    + rewrite elem_of_cons. intros [?|?]; [congruence | done].
Qed.

End activate_facts.

(** * The claims about activation *)

Section activate_claims.
Context (cfg : Config) (h : Host).
Implicit Types (w : World) (n : string).

Lemma not_old_current n : ¬ old cfg n ↔ current cfg n.
Proof.
  unfold old, current.
  destruct (decide (n = CACHE_NAME cfg)), (decide (n = STATIC_CACHE cfg));
    tauto.
Qed.

(** C5: with the store carrying out the deletes, activation leaves
    exactly the caches named by the two current names, each with the
    contents it had; every cache under any other name is gone.  So after
    a version bump the cache under the previous dynamic name is absent,
    and whatever a lookup then finds is held by a current cache. *)
Theorem C5_activation_keeps_only_current_caches w :
  keys_fault h = None →
  (∀ n, n ∈ store_names (caches w) → delete_fault h n = None) →
  ∃ w',
    on_activate cfg h w = (Fulfilled (), w') ∧
    caches w' = filter (λ nc, current cfg nc.1) (caches w) ∧
    (∀ n, n ∈ store_names (caches w') ↔
          n ∈ store_names (caches w) ∧ current cfg n) ∧
    store_get (caches w') (CACHE_NAME cfg) =
      store_get (caches w) (CACHE_NAME cfg) ∧
    store_get (caches w') (STATIC_CACHE cfg) =
      store_get (caches w) (STATIC_CACHE cfg) ∧
    (∀ n, old cfg n →
          store_get (caches w') n = None ∧
          ∀ key, stored_in (caches w') n key = None) ∧
    (∀ key r, store_match (caches w') key = Some r →
       ∃ n c, (n, c) ∈ caches w ∧ current cfg n ∧ c !! key = Some r).
Proof.
  intros Hk Hdel.
  destruct (on_activate_run cfg h w Hk) as (p & es & Hrun & Hp).
  assert (Hfil : filter (λ nc, ¬ removable cfg h nc.1) (caches w) =
                 filter (λ nc, current cfg nc.1) (caches w)).
  { apply filter_ext_in. intros [n c] Hin. simpl.
    rewrite <- not_old_current. unfold removable. split; [|tauto].
    intros Hn Ho. apply Hn. split; [done|].
    apply Hdel. by apply (list_elem_of_fmap_2 fst) in Hin. }
  rewrite Hfil in Hrun. destruct p as [[]|e].
  2:{ destruct Hp as [(n & Hin & _ & Hsome) _].
      rewrite (Hdel n Hin) in Hsome. by destruct Hsome. }
  eexists. split; [exact Hrun|]. simpl. split_and!.
  - done.
  - intros n. apply (store_names_filter (current cfg)).
  - apply (store_get_filter_keep (current cfg)). by left.
  - apply (store_get_filter_keep (current cfg)). by right.
  - intros n Ho.
    assert (Hg : store_get (filter (λ nc, current cfg nc.1) (caches w)) n = None).
    { apply (store_get_filter_drop (current cfg)).
      rewrite <- not_old_current. tauto. }
    split; [done|]. intros key. unfold stored_in. by rewrite Hg.
  - intros key r. apply (store_match_filter (current cfg)).
Qed.

(** C8, as the code has it: every old cache whose own delete the store
    carries out is deleted, whatever becomes of the other deletes, and a
    cache whose delete fails stays as it was; but when the delete of an
    old cache in the store fails, the handler's promise rejects and
    [clients.claim] is not called. *)
Theorem C8_failed_delete_rejects_activation w :
  keys_fault h = None →
  ∃ p w' es,
    on_activate cfg h w = (p, w') ∧
    emitted w w' es ∧
    (∀ n, old cfg n → delete_fault h n = None →
          store_get (caches w') n = None) ∧
    (∀ n, ¬ removable cfg h n →
          store_get (caches w') n = store_get (caches w) n) ∧
    ((∃ n, n ∈ store_names (caches w) ∧ old cfg n ∧
           is_Some (delete_fault h n)) →
     (∃ e, p = Rejected e) ∧ ClientsClaim ∉ es).
Proof.
  intros Hk.
  destruct (on_activate_run cfg h w Hk) as (p & es & Hrun & Hp).
  eexists p, _, es. split; [exact Hrun|]. simpl. split_and!.
  - done.
  - intros n Ho Hf.
    apply (store_get_filter_drop (λ n, ¬ removable cfg h n)).
    intros Hn. by apply Hn.
  - intros n Hn.
    by apply (store_get_filter_keep (λ n, ¬ removable cfg h n)).
  - intros (n & Hin & Ho & Hsome). destruct p as [[]|e].
    + destruct Hp as [Hall _]. rewrite (Hall n Hin Ho) in Hsome.
      by destruct Hsome.
    + destruct Hp as [_ Hc]. split; [by exists e | done].
Qed.

End activate_claims.

(** * The handlers keep the store well formed *)

Section store_wf_kept.
Context (cfg : Config) (h : Host).
Implicit Types (req : Request) (w : World).

Lemma write_through_wf req r w :
  String.prefix "chrome-extension://" (url req) = false →
  store_wf (caches w) → store_wf (caches (write_through cfg h req r w)).
Proof.
  intros Hp Hwf. unfold write_through. task_unfold.
  destruct (open_fault h (CACHE_NAME cfg)); simpl; [done|].
  destruct (put_fault h (CACHE_NAME cfg) (url req)); simpl.
  - by apply store_wf_open.
  - by apply store_wf_put, store_wf_open.
Qed.

Lemma respond_wf req w :
  String.prefix "chrome-extension://" (url req) = false →
  store_wf (caches w) → store_wf (caches (respond cfg h req w).2).
Proof.
  intros Hp Hwf. unfold respond. task_unfold.
  destruct (match_fault h (url req)); simpl; [done|].
  destruct (store_match (caches w) (url req)); simpl; [done|].
  destruct (net h req) as [[r|]|e]; simpl; try done.
  - destruct (decide (status r ≠ 200%Z ∨ type r ≠ "basic")); simpl; [done|].
    by apply (write_through_wf req r (asked_network req w)).
  - destruct (decide (mode req = "navigate")); simpl; [|done].
    by destruct (match_fault h "/").
Qed.

Lemma on_fetch_wf req w :
  store_wf (caches w) → store_wf (caches (on_fetch cfg h req w).2).
Proof.
  intros Hwf. unfold on_fetch.
  destruct (decide (method req ≠ "GET")); [done|].
  destruct (String.prefix "chrome-extension://" (url req)) eqn:Hp; [done|].
  pose proof (respond_wf req w Hp Hwf).
  by destruct (respond cfg h req w).
Qed.

Lemma on_activate_wf w :
  store_wf (caches w) → store_wf (caches (on_activate cfg h w).2).
Proof.
  intros Hwf. destruct (keys_fault h) as [e|] eqn:Hk.
  - unfold on_activate, caches_keys. task_unfold. by rewrite Hk.
  - destruct (on_activate_run cfg h w Hk) as (p & es & -> & _). simpl.
    unfold store_wf in *. rewrite !Forall_forall in *.
    intros x [_ Hin]%list_elem_of_filter. by apply Hwf.
Qed.

Lemma put_all_wf (name : string) (urls : list string) (s : Store) :
  Forall (λ u, String.prefix "chrome-extension://" u = false) urls →
  store_wf s →
  store_wf (foldl (λ s u, match net h (request_of u) with
                          | Fulfilled (Some r) => store_put s name u r
                          | _ => s
                          end) s urls).
Proof.
  intros Hurls. revert s. induction Hurls as [|u urls Hu _ IH]; intros s Hwf.
  - done.
  - simpl. apply IH. destruct (net h (request_of u)) as [[r|]|e]; try done.
    by apply store_wf_put.
Qed.

Lemma on_install_wf w :
  Forall (λ u, String.prefix "chrome-extension://" u = false) (CORE_ASSETS cfg) →
  store_wf (caches w) → store_wf (caches (on_install cfg h w).2).
Proof.
  intros Hurls Hwf. unfold on_install, cache_addAll. task_unfold. simpl.
  destruct (open_fault h (STATIC_CACHE cfg)); simpl; [done|].
  rewrite ask_all_world. simpl.
  destruct (forallb (fetchable h) (CORE_ASSETS cfg)); simpl.
  2:{ by apply store_wf_open. }
  destruct (head (omap (put_fault h (STATIC_CACHE cfg)) (CORE_ASSETS cfg)));
    simpl.
  - by apply store_wf_open.
  - by apply put_all_wf, store_wf_open.
Qed.

End store_wf_kept.

(** A form submission is a navigation the handler does not answer. *)
Example post_navigation_passes_through :
  on_fetch sw_config host_offline post_form world_installed =
    (PassThrough, world_installed).
Proof. reflexivity. Qed.

(** * The claims at sample inputs *)

Lemma C1_witness :
  ∃ w' es,
    on_fetch sw_config host_online get_root world_installed =
      (RespondWith (Fulfilled (Some shell)), w') ∧
    dispatch_fetch sw_config host_online get_root world_installed =
      (Fulfilled (Some shell), w') ∧
    caches w' = caches world_installed ∧
    emitted world_installed w' es ∧ Forall (λ ev, ¬ is_fetch ev) es.
Proof.
  apply (C1_cache_hit_is_exclusive_answer sw_config host_online
           get_root world_installed shell).
  - reflexivity.
  - apply (bool_decide_unpack _). vm_compute. exact I.
  - reflexivity.
  - vm_compute. reflexivity.
Defined.

Lemma C3_witness :
  ∃ wd w1 w2 es,
    dispatch_sched sw_config host_online postpone get_script
      world_installed = (Fulfilled (Some shell), wd) ∧
    caches wd = caches world_installed ∧
    w1 = write_through sw_config host_online get_script shell wd ∧
    dispatch_fetch sw_config host_online get_script world_installed =
      (Fulfilled (Some shell), w1) ∧
    stored_in (caches w1) (CACHE_NAME sw_config) (url get_script) =
      Some shell ∧
    dispatch_fetch sw_config host_online get_script w1 =
      (Fulfilled (Some shell), w2) ∧
    caches w2 = caches w1 ∧
    emitted w1 w2 es ∧ Forall (λ ev, ¬ is_fetch ev) es.
Proof.
  apply (C3_round_trip_once_write_completed sw_config host_online
           get_script world_installed shell).
  - split; reflexivity.
  - reflexivity.
  - vm_compute. reflexivity.
  - reflexivity.
  - reflexivity.
  - reflexivity.
  - reflexivity.
  - reflexivity.
Defined.

(** C3 fails as stated: the handler delivers the answer without awaiting
    the write, and a request for the same URL handled at that moment,
    the write not having run yet, finds nothing in the store and is
    fetched from the network a second time. *)
Lemma C3_counterexample :
  intercepted get_script ∧
  store_match (caches world_installed) (url get_script) = None ∧
  net host_online get_script = Fulfilled (Some shell) ∧
  dispatch_sched sw_config host_online postpone get_script world_installed =
    (Fulfilled (Some shell), asked_network get_script world_installed) ∧
  store_match (caches (asked_network get_script world_installed))
    (url get_script) = None ∧
  filter is_fetch
    (events (dispatch_fetch sw_config host_online get_script
               (asked_network get_script world_installed)).2) =
    [NetFetch get_script; NetFetch get_script].
Proof.
  split_and!; try (vm_compute; reflexivity). by split.
Qed.

Lemma C4_witness :
  ∃ es,
    emitted world_installed
      (dispatch_fetch sw_config host_online get_script world_installed).2 es ∧
    (∀ name key r, CachePut name key r ∈ es →
       name = CACHE_NAME sw_config ∧ key = url get_script ∧
       net host_online get_script = Fulfilled (Some r) ∧
       storable get_script (Some r)) ∧
    (caches (dispatch_fetch sw_config host_online get_script world_installed).2
       ≠ caches world_installed →
     ∃ r, net host_online get_script = Fulfilled (Some r) ∧
          storable get_script (Some r)) ∧
    (∀ resp, NetFetch get_script ∈ es →
       net host_online get_script = Fulfilled resp →
       ¬ storable get_script resp →
       (dispatch_fetch sw_config host_online get_script world_installed).1 =
         Fulfilled resp ∧
       caches (dispatch_fetch sw_config host_online get_script world_installed).2 =
         caches world_installed ∧
       Forall (λ ev, ¬ is_put ev) es).
Proof.
  apply (C4_only_storable_responses_persisted sw_config host_online
           get_script world_installed).
  vm_compute. reflexivity.
Defined.

Lemma C6_witness :
  ∃ w',
    on_fetch sw_config host_offline get_settings world_installed =
      (RespondWith (Fulfilled (Some shell)), w') ∧
    dispatch_fetch sw_config host_offline get_settings world_installed =
      (Fulfilled (Some shell), w') ∧
    caches w' = caches world_installed.
Proof.
  apply (C6_offline_navigation_gets_root sw_config host_offline
           get_settings world_installed offline_error shell).
  - split; reflexivity.
  - reflexivity.
  - reflexivity.
  - vm_compute. reflexivity.
  - reflexivity.
  - reflexivity.
  - vm_compute. reflexivity.
Defined.

Lemma C7_witness :
  ∃ w',
    dispatch_fetch sw_config host_offline get_script world_installed =
      (Rejected offline_error, w') ∧
    (intercepted get_script →
     on_fetch sw_config host_offline get_script world_installed =
       (RespondWith (Rejected offline_error), w')) ∧
    caches w' = caches world_installed.
Proof.
  apply (C7_offline_subresource_propagates sw_config host_offline
           get_script world_installed offline_error).
  - discriminate.
  - reflexivity.
  - vm_compute. reflexivity.
  - reflexivity.
Defined.

Lemma C10_witness :
  ∃ w',
    on_fetch sw_config host_offline get_settings world_empty =
      (RespondWith (Fulfilled None), w') ∧
    caches w' = caches world_empty.
Proof.
  apply (C10_offline_navigation_without_root sw_config host_offline
           get_settings world_empty offline_error).
  - split; reflexivity.
  - reflexivity.
  - reflexivity.
  - reflexivity.
  - reflexivity.
  - reflexivity.
  - reflexivity.
Defined.

Lemma C9_witness :
  on_fetch sw_config host_read_fault get_script world_installed =
    (RespondWith (Rejected quota_error), world_installed) ∧
  dispatch_fetch sw_config host_read_fault get_script world_installed =
    (Rejected quota_error, world_installed).
Proof.
  apply (C9_read_fault_rejects sw_config host_read_fault
           get_script world_installed quota_error).
  - split; reflexivity.
  - reflexivity.
Defined.

(** C9 fails as stated: with the store lookup failing and the network
    ready to answer, the request gets the store's error, and the log
    shows no network fetch. *)
Lemma C9_counterexample :
  intercepted get_script ∧
  match_fault host_read_fault (url get_script) = Some quota_error ∧
  net host_read_fault get_script = Fulfilled (Some shell) ∧
  dispatch_fetch sw_config host_read_fault get_script world_installed =
    (Rejected quota_error, world_installed) ∧
  ¬ ∃ resp w',
      dispatch_fetch sw_config host_read_fault get_script world_installed =
        (Fulfilled resp, w').
Proof.
  split_and!; try reflexivity.
  - by split.
  - intros (resp & w' & Heq). vm_compute in Heq. discriminate.
Qed.

Lemma C2_witness :
  ∃ w' es e,
    on_install sw_config host_offline world_empty = (Fulfilled (), w') ∧
    after_install (on_install sw_config host_offline world_empty).1 =
      Installed ∧
    (∀ name key, stored_in (caches w') name key =
                 stored_in (caches world_empty) name key) ∧
    emitted world_empty w' es ∧
    (SkipWaiting ∉ es) ∧
    ConsoleLog ["[SW] Cache installation failed:"; error_text e] ∈ es.
Proof.
  apply (C2_failed_install_is_caught_and_logged sw_config host_offline
           world_empty).
  exists "/". split; [by left | reflexivity].
Defined.

(** C2 fails as stated: with the network down no manifest entry can be
    fetched, yet the promise given to [waitUntil] fulfils and the worker
    is moved to installed. *)
Lemma C2_counterexample :
  "/" ∈ CORE_ASSETS sw_config ∧
  fetchable host_offline "/" = false ∧
  (on_install sw_config host_offline world_empty).1 = Fulfilled () ∧
  after_install (on_install sw_config host_offline world_empty).1 = Installed.
Proof.
  split_and!; try reflexivity. by left.
Qed.

Lemma C5_witness :
  ∃ w',
    on_activate sw_config host_online world_upgraded = (Fulfilled (), w') ∧
    caches w' =
      filter (λ nc, current sw_config nc.1) (caches world_upgraded) ∧
    (∀ n, n ∈ store_names (caches w') ↔
          n ∈ store_names (caches world_upgraded) ∧ current sw_config n) ∧
    store_get (caches w') (CACHE_NAME sw_config) =
      store_get (caches world_upgraded) (CACHE_NAME sw_config) ∧
    store_get (caches w') (STATIC_CACHE sw_config) =
      store_get (caches world_upgraded) (STATIC_CACHE sw_config) ∧
    (∀ n, old sw_config n →
          store_get (caches w') n = None ∧
          ∀ key, stored_in (caches w') n key = None) ∧
    (∀ key r, store_match (caches w') key = Some r →
       ∃ n c, (n, c) ∈ caches world_upgraded ∧ current sw_config n ∧
              c !! key = Some r).
Proof.
  apply (C5_activation_keeps_only_current_caches sw_config host_online
           world_upgraded).
  - reflexivity.
  - intros n _. reflexivity.
Defined.

(** After the bump from v0 to v1, an entry only the v0 dynamic cache held
    is found before activation and not after. *)
Example old_dynamic_entry_unreachable :
  store_match (caches world_upgraded) "/drafts" = Some shell ∧
  store_match
    (caches (on_activate sw_config host_online world_upgraded).2) "/drafts" =
    None.
Proof. split; vm_compute; reflexivity. Qed.

Lemma C8_witness :
  ∃ p w' es,
    on_activate sw_config host_delete_fault world_upgraded = (p, w') ∧
    emitted world_upgraded w' es ∧
    (∀ n, old sw_config n → delete_fault host_delete_fault n = None →
          store_get (caches w') n = None) ∧
    (∀ n, ¬ removable sw_config host_delete_fault n →
          store_get (caches w') n = store_get (caches world_upgraded) n) ∧
    ((∃ n, n ∈ store_names (caches world_upgraded) ∧ old sw_config n ∧
           is_Some (delete_fault host_delete_fault n)) →
     (∃ e, p = Rejected e) ∧ ClientsClaim ∉ es).
Proof.
  apply (C8_failed_delete_rejects_activation sw_config host_delete_fault
           world_upgraded).
  reflexivity.
Defined.

(** C8 fails as stated: with the delete of one old cache failing, the
    other old cache is deleted, but the handler's promise rejects and the
    log shows no [clients.claim]. *)
Lemma C8_counterexample :
  store_names (caches world_upgraded) =
    ["pre-prd-v0"; "pre-prd-static-v0"; "pre-prd-static-v1"; "pre-prd-v1"] ∧
  delete_fault host_delete_fault "pre-prd-v0" = Some quota_error ∧
  (on_activate sw_config host_delete_fault world_upgraded).1 =
    Rejected quota_error ∧
  store_names (caches (on_activate sw_config host_delete_fault world_upgraded).2) =
    ["pre-prd-v0"; "pre-prd-static-v1"; "pre-prd-v1"] ∧
  ClientsClaim ∉ events (on_activate sw_config host_delete_fault world_upgraded).2.
Proof.
  split_and!; try (vm_compute; reflexivity).
  apply (bool_decide_unpack _). vm_compute. exact I.
Qed.

(** * More about the fetch handler *)

Section fetch_more.
Context (cfg : Config) (h : Host).
Implicit Types (req : Request) (w : World) (r : Response) (e : JsError)
  (s : Store).

(** Every way a fetch event can go. *)
Lemma dispatch_cases req w :
  (¬ intercepted req ∧
   dispatch_fetch cfg h req w = (net h req, record (NetFetch req) w)) ∨
  (∃ e, intercepted req ∧ match_fault h (url req) = Some e ∧
        dispatch_fetch cfg h req w = (Rejected e, w)) ∨
  (∃ r, intercepted req ∧ match_fault h (url req) = None ∧
        store_match (caches w) (url req) = Some r ∧
        dispatch_fetch cfg h req w =
          (Fulfilled (Some r),
           record (ConsoleLog ["[SW] Serving from cache:"; url req]) w)) ∨
  (∃ resp, intercepted req ∧ match_fault h (url req) = None ∧
        store_match (caches w) (url req) = None ∧
        net h req = Fulfilled resp ∧ ¬ storable req resp ∧
        dispatch_fetch cfg h req w = (Fulfilled resp, asked_network req w)) ∨
  (∃ r, intercepted req ∧ match_fault h (url req) = None ∧
        store_match (caches w) (url req) = None ∧
        net h req = Fulfilled (Some r) ∧ storable req (Some r) ∧
        dispatch_fetch cfg h req w =
          (Fulfilled (Some r),
           write_through cfg h req r (asked_network req w))) ∨
  (∃ e, intercepted req ∧ match_fault h (url req) = None ∧
        store_match (caches w) (url req) = None ∧
        net h req = Rejected e ∧ mode req = "navigate" ∧
        dispatch_fetch cfg h req w =
          caches_match h "/" (logged_failure req e w)) ∨
  (∃ e, intercepted req ∧ match_fault h (url req) = None ∧
        store_match (caches w) (url req) = None ∧
        net h req = Rejected e ∧ mode req ≠ "navigate" ∧
        dispatch_fetch cfg h req w = (Rejected e, logged_failure req e w)).
Proof.
  destruct (decide (intercepted req)) as [Hi|Hi].
  2:{ left. split; [done|]. by apply dispatch_pass. }
  right. rewrite dispatch_respond by done.
  destruct (match_fault h (url req)) as [e|] eqn:Hf.
  { left. exists e. split_and!; try done. by apply respond_read_fault. }
  right. destruct (store_match (caches w) (url req)) as [r|] eqn:Hs.
  { left. exists r. split_and!; try done. by apply respond_hit. }
  right. destruct (net h req) as [resp|e] eqn:Hn.
  - destruct (decide (storable req resp)) as [Hst|Hst].
    + right. left. destruct resp as [r|]; [|by destruct Hst].
      exists r. split_and!; try done.
      destruct Hst as (_ & ? & ?). by apply respond_miss_store.
    + left. exists resp. split_and!; try done.
      apply respond_miss_pass; try done.
      intros r ->. destruct (decide (status r = 200%Z)); [|by left].
      destruct (decide (type r = "basic")); [|by right].
      exfalso. apply Hst. destruct Hi. by apply storable_intro.
  - right. right. destruct (decide (mode req = "navigate")) as [Hm|Hm].
    + left. exists e. split_and!; try done. by apply respond_offline_navigate.
    + right. exists e. split_and!; try done.
      by apply respond_offline_subresource.
Qed.

Lemma write_through_caches req r w :
  (caches (write_through cfg h req r w) = caches w ∧
   is_Some (open_fault h (CACHE_NAME cfg))) ∨
  (caches (write_through cfg h req r w) =
     store_open (caches w) (CACHE_NAME cfg) ∧
   is_Some (put_fault h (CACHE_NAME cfg) (url req))) ∨
  (caches (write_through cfg h req r w) =
     store_put (store_open (caches w) (CACHE_NAME cfg))
       (CACHE_NAME cfg) (url req) r ∧
   open_fault h (CACHE_NAME cfg) = None ∧
   put_fault h (CACHE_NAME cfg) (url req) = None).
Proof.
  unfold write_through. task_unfold.
  destruct (open_fault h (CACHE_NAME cfg)); simpl; [left; eauto|].
  destruct (put_fault h (CACHE_NAME cfg) (url req)); simpl;
    [right; left; eauto | right; right; eauto].
Qed.

Lemma caches_match_caches key w :
  caches (caches_match h key w).2 = caches w.
Proof. by rewrite caches_match_world. Qed.

(** What a fetch event can do to the store. *)
Lemma dispatch_caches req w :
  caches (dispatch_fetch cfg h req w).2 = caches w ∨
  caches (dispatch_fetch cfg h req w).2 =
    store_open (caches w) (CACHE_NAME cfg) ∨
  ∃ r, intercepted req ∧
       caches (dispatch_fetch cfg h req w).2 =
         store_put (store_open (caches w) (CACHE_NAME cfg))
           (CACHE_NAME cfg) (url req) r.
Proof.
  destruct (dispatch_cases req w)
    as [[_ ->]|[(e & _ & _ & ->)|[(r & _ & _ & _ & ->)|
        [(resp & _ & _ & _ & _ & _ & ->)|[(r & Hi & _ & _ & _ & _ & ->)|
        [(e & _ & _ & _ & _ & _ & ->)|(e & _ & _ & _ & _ & _ & ->)]]]]]];
    simpl; try by left.
  - destruct (write_through_caches req r (asked_network req w))
      as [[-> _]|[[-> _]|[-> _]]]; simpl; eauto.
  - left. by rewrite caches_match_caches.
Qed.

Lemma store_names_put s name key r :
  store_names (store_put s name key r) = store_names s.
Proof.
  unfold store_names, store_put. rewrite <- list_fmap_compose.
  apply list_fmap_ext. intros i [n c] _. simpl.
  by destruct (decide (n = name)).
Qed.

Lemma store_names_open_incl s name n :
  n ∈ store_names s → n ∈ store_names (store_open s name).
Proof.
  unfold store_open. destruct (store_has s name); [done|].
  unfold store_names. rewrite fmap_app, elem_of_app. by left.
Qed.

Lemma stored_in_put_other s n k r name key :
  name ≠ n ∨ key ≠ k →
  stored_in (store_put s n k r) name key = stored_in s name key.
Proof.
  intros Hne. unfold stored_in. induction s as [|[m c] s IH]; simpl; [done|].
  destruct (decide (m = n)) as [->|Hmn]; simpl.
  - destruct (decide (n = name)) as [->|?]; simpl; [|done].
    destruct Hne as [?|?]; [done|]. by rewrite lookup_insert_ne.
  - destruct (decide (m = name)); simpl; [done|]. apply IH.
Qed.

(** X1: the handler answers a fetch event exactly when the request is a
    GET whose URL is outside the extension scheme; for any other request
    it returns with the world as it was, so the page gets what the host's
    own fetch of the request gives, whatever the store holds. *)
Theorem X1_answers_exactly_intercepted_requests req w :
  ((on_fetch cfg h req w).1 = PassThrough ↔ ¬ intercepted req) ∧
  (¬ intercepted req →
   on_fetch cfg h req w = (PassThrough, w) ∧
   dispatch_fetch cfg h req w = fetch h req w).
Proof.
  split.
  - split.
    + intros Hp Hi. rewrite on_fetch_respond in Hp by done. discriminate.
    + intros Hi. by rewrite on_fetch_pass.
  - intros Hi. split; [by apply on_fetch_pass|].
    by rewrite dispatch_pass.
Qed.

(** X2: when the write into the dynamic cache fails (the cache cannot be
    opened, or the put is refused), the caller still gets the network's
    response; no cache holds anything it did not hold before and every
    lookup answers as before. *)
Theorem X2_failed_write_is_swallowed req w r :
  intercepted req →
  match_fault h (url req) = None →
  store_match (caches w) (url req) = None →
  net h req = Fulfilled (Some r) →
  status r = 200%Z → type r = "basic" →
  is_Some (open_fault h (CACHE_NAME cfg)) ∨
    is_Some (put_fault h (CACHE_NAME cfg) (url req)) →
  ∃ w',
    dispatch_fetch cfg h req w = (Fulfilled (Some r), w') ∧
    (∀ name key,
       stored_in (caches w') name key = stored_in (caches w) name key) ∧
    (∀ key, store_match (caches w') key = store_match (caches w) key).
Proof.
  intros Hi Hf Hs Hn Hst Hty Hfault. eexists.
  rewrite dispatch_respond by done.
  rewrite (respond_miss_store cfg h req w r) by done.
  split; [done|].
  destruct (write_through_caches req r (asked_network req w))
    as [[-> _]|[[-> _]|(_ & Ho & Hp)]]; simpl.
  - done.
  - split; intros; [apply stored_in_open | apply store_match_open].
  - rewrite Ho, Hp in Hfault. by destruct Hfault as [[]|[]].
Qed.

(** X3: a fetch event never removes a cache, and the only entry it can
    change is the one for the request's own URL in the dynamic cache:
    every other entry of every cache, the static cache included, reads
    as before. *)
Theorem X3_fetch_touches_only_its_own_entry req w :
  (∀ n, n ∈ store_names (caches w) →
        n ∈ store_names (caches (dispatch_fetch cfg h req w).2)) ∧
  (∀ name key, name ≠ CACHE_NAME cfg ∨ key ≠ url req →
     stored_in (caches (dispatch_fetch cfg h req w).2) name key =
     stored_in (caches w) name key).
Proof.
  destruct (dispatch_caches req w) as [->|[->|(r & _ & ->)]].
  - done.
  - split; intros.
    + by apply store_names_open_incl.
    + apply stored_in_open.
  - split.
    + intros n Hn. rewrite store_names_put. by apply store_names_open_incl.
    + intros name key Hne. rewrite stored_in_put_other by done.
      apply stored_in_open.
Qed.

(** X4: one fetch event makes at most one network fetch, and that one is
    for the event's own request. *)
Theorem X4_at_most_one_network_fetch req w :
  ∃ es,
    emitted w (dispatch_fetch cfg h req w).2 es ∧
    (filter is_fetch es = [] ∨ filter is_fetch es = [NetFetch req]).
Proof.
  unfold emitted.
  destruct (dispatch_cases req w)
    as [[_ ->]|[(e & _ & _ & ->)|[(r & _ & _ & _ & ->)|
        [(resp & _ & _ & _ & _ & _ & ->)|[(r & Hi & _ & _ & _ & _ & ->)|
        [(e & _ & _ & _ & _ & _ & ->)|(e & _ & _ & _ & _ & _ & ->)]]]]]];
    simpl.
  - exists [NetFetch req]. split; [done | by right].
  - exists []. split; [by rewrite app_nil_r | by left].
  - eexists [_]. split; [done | by left].
  - exists [ConsoleLog ["[SW] Fetching from network:"; url req]; NetFetch req].
    split; [by rewrite <- app_assoc | by right].
  - destruct (write_through_events cfg h req r (asked_network req w))
      as [->| ->]; simpl.
    + exists [ConsoleLog ["[SW] Fetching from network:"; url req];
              NetFetch req].
      split; [by rewrite <- app_assoc | by right].
    + exists [ConsoleLog ["[SW] Fetching from network:"; url req];
              NetFetch req; CachePut (CACHE_NAME cfg) (url req) r].
      split; [by rewrite <- !app_assoc | by right].
  - rewrite caches_match_world. simpl.
    exists [ConsoleLog ["[SW] Fetching from network:"; url req];
            NetFetch req;
            ConsoleLog ["[SW] Network fetch failed:"; error_text e]].
    split; [by rewrite <- !app_assoc | by right].
  - exists [ConsoleLog ["[SW] Fetching from network:"; url req];
            NetFetch req;
            ConsoleLog ["[SW] Network fetch failed:"; error_text e]].
    split; [by rewrite <- !app_assoc | by right].
Qed.

(** X5: a network response the handler does not store (not 200, or not
    basic, or no response) is not remembered: the caller gets it as it
    is, the store is unchanged, and the same request issued next goes to
    the network again. *)
Theorem X5_unstorable_response_is_refetched req w resp :
  intercepted req →
  match_fault h (url req) = None →
  store_match (caches w) (url req) = None →
  net h req = Fulfilled resp →
  ¬ storable req resp →
  ∃ w1,
    dispatch_fetch cfg h req w = (Fulfilled resp, w1) ∧
    caches w1 = caches w ∧
    dispatch_fetch cfg h req w1 = (Fulfilled resp, asked_network req w1).
Proof.
  intros Hi Hf Hs Hn Hst.
  assert (Hr : ∀ r, resp = Some r → status r ≠ 200%Z ∨ type r ≠ "basic").
  { intros r ->. destruct (decide (status r = 200%Z)); [|by left].
    destruct (decide (type r = "basic")); [|by right].
    exfalso. apply Hst. destruct Hi. by apply storable_intro. }
  exists (asked_network req w). rewrite !dispatch_respond by done.
  rewrite (respond_miss_pass cfg h req w resp) by done.
  split_and!; try done.
  by apply respond_miss_pass.
Qed.

(** X6: when an intercepted navigation has no stored match, its network
    fetch rejects and the lookup of the root document fails in the store,
    the answer rejects with the store's error, not the network's. *)
Theorem X6_root_lookup_failure_replaces_network_error req w e e' :
  intercepted req →
  mode req = "navigate" →
  match_fault h (url req) = None →
  store_match (caches w) (url req) = None →
  net h req = Rejected e →
  match_fault h "/" = Some e' →
  on_fetch cfg h req w = (RespondWith (Rejected e'), logged_failure req e w).
Proof.
  intros Hi Hm Hf Hs Hn Hf'. rewrite on_fetch_respond by done.
  rewrite (respond_offline_navigate cfg h req w e) by done.
  unfold caches_match. by rewrite Hf'.
Qed.

(** Requests for a stored URL, one after the other, are all answered
    from the store. *)
Lemma dispatch_all_hits req w r (n : nat) :
  intercepted req →
  match_fault h (url req) = None →
  store_match (caches w) (url req) = Some r →
  ∃ w' es,
    dispatch_all cfg h (replicate n req) w =
      (replicate n (Fulfilled (Some r)), w') ∧
    caches w' = caches w ∧
    emitted w w' es ∧ filter is_fetch es = [].
Proof.
  intros Hi Hf. revert w. induction n as [|n IH]; intros w Hs.
  - exists w, []. unfold emitted. by rewrite app_nil_r.
  - simpl. rewrite dispatch_respond by done.
    rewrite (respond_hit cfg h req w r) by done.
    set (w1 := record (ConsoleLog ["[SW] Serving from cache:"; url req]) w).
    destruct (IH w1 Hs) as (w' & es & -> & Hc & Hes & Hnf).
    exists w', (ConsoleLog ["[SW] Serving from cache:"; url req] :: es).
    split_and!; try done.
    unfold emitted in *. rewrite Hes. simpl. by rewrite <- app_assoc.
Qed.

(** X7: however often an uncached URL is requested in a row, with the
    network answering 200 and basic and the store accepting the write,
    every request gets that response and the network is asked once. *)
Theorem X7_repeated_requests_fetch_once req w r (n : nat) :
  intercepted req →
  match_fault h (url req) = None →
  store_match (caches w) (url req) = None →
  net h req = Fulfilled (Some r) →
  status r = 200%Z → type r = "basic" →
  open_fault h (CACHE_NAME cfg) = None →
  put_fault h (CACHE_NAME cfg) (url req) = None →
  ∃ w' es,
    dispatch_all cfg h (replicate (S n) req) w =
      (replicate (S n) (Fulfilled (Some r)), w') ∧
    emitted w w' es ∧ filter is_fetch es = [NetFetch req].
Proof.
  intros Hi Hf Hs Hn Hst Hty Ho Hp. simpl.
  rewrite dispatch_respond by done.
  rewrite (respond_miss_store cfg h req w r) by done.
  set (w1 := write_through cfg h req r (asked_network req w)).
  assert (Hw1 : w1 =
    with_caches
      (store_put (store_open (caches w) (CACHE_NAME cfg))
         (CACHE_NAME cfg) (url req) r)
      (record (CachePut (CACHE_NAME cfg) (url req) r) (asked_network req w))).
  { unfold w1. by rewrite write_through_ok by done. }
  assert (Hs1 : store_match (caches w1) (url req) = Some r).
  { rewrite Hw1. unfold asked_network. simpl. apply store_match_put_fresh.
    - by rewrite store_match_open.
    - apply store_names_open. }
  destruct (dispatch_all_hits req w1 r n Hi Hf Hs1)
    as (w' & es & -> & Hc & Hes & Hnf).
  exists w', ([ConsoleLog ["[SW] Fetching from network:"; url req];
              NetFetch req; CachePut (CACHE_NAME cfg) (url req) r] ++ es).
  split_and!; try done.
  - unfold emitted in *. rewrite Hes, Hw1. simpl. by rewrite <- !app_assoc.
  - rewrite filter_app, Hnf. done.
Qed.

(** X18: the fetch handler itself brings the dynamic cache into being.
    When a response is written through and the store holds no cache under
    the dynamic name, that cache is created, after all the others; when
    it is there already, the list of caches stays as it is. *)
Theorem X18_first_write_creates_dynamic_cache req w r :
  intercepted req →
  match_fault h (url req) = None →
  store_match (caches w) (url req) = None →
  net h req = Fulfilled (Some r) →
  status r = 200%Z → type r = "basic" →
  open_fault h (CACHE_NAME cfg) = None →
  put_fault h (CACHE_NAME cfg) (url req) = None →
  store_names (caches (dispatch_fetch cfg h req w).2) =
    if decide (CACHE_NAME cfg ∈ store_names (caches w))
    then store_names (caches w)
    else store_names (caches w) ++ [CACHE_NAME cfg].
Proof.
  intros Hi Hf Hs Hn Hst Hty Ho Hp.
  rewrite dispatch_respond by done.
  rewrite (respond_miss_store cfg h req w r) by done. simpl.
  rewrite write_through_ok by done. simpl.
  rewrite store_names_put. unfold store_open, store_has.
  destruct (decide (CACHE_NAME cfg ∈ store_names (caches w))) as [Hin|Hin].
  - by rewrite bool_decide_true.
  - rewrite bool_decide_false by done. unfold store_names.
    by rewrite fmap_app.
Qed.

End fetch_more.

(** * More about the install handler *)

Section install_more.
Context (cfg : Config) (h : Host).
Implicit Types (w : World) (s : Store) (u key name : string).

Local Ltac log_eq :=
  unfold emit, record, with_caches; simpl; rewrite <- ?app_assoc; simpl;
  rewrite <- ?app_assoc; done.

Lemma put_all_names name (urls : list string) s :
  store_names (put_all h name s urls) = store_names s.
Proof.
  unfold put_all.
  revert s. induction urls as [|u urls IH]; intros s; simpl; [done|].
  rewrite IH. destruct (net h (request_of u)) as [[r|]|e]; try done.
  apply store_names_put.
Qed.

Lemma put_all_other name (urls : list string) s n key :
  n ≠ name ∨ key ∉ urls →
  stored_in (put_all h name s urls) n key = stored_in s n key.
Proof.
  unfold put_all.
  revert s. induction urls as [|u urls IH]; intros s Hne; simpl; [done|].
  rewrite IH.
  2:{ destruct Hne as [?|Hk]; [by left|]. right. intros Hin. apply Hk.
      by right. }
  destruct (net h (request_of u)) as [[r|]|e]; try done.
  apply stored_in_put_other. destruct Hne as [?|Hk]; [by left|].
  right. intros ->. apply Hk. by left.
Qed.

Lemma put_all_in name (urls : list string) s key r :
  name ∈ store_names s → key ∈ urls → fetched h key = Some r →
  stored_in (put_all h name s urls) name key = Some r.
Proof.
  intros Hname Hin Hr. revert s Hname.
  induction urls as [|u urls IH]; intros s Hname; simpl.
  - by apply elem_of_nil in Hin.
  - change (stored_in
              (put_all h name
                 (match net h (request_of u) with
                  | Fulfilled (Some r) => store_put s name u r
                  | _ => s
                  end) urls) name key = Some r).
    destruct (decide (key ∈ urls)) as [Htl|Htl].
    + apply IH; [done|].
      destruct (net h (request_of u)) as [[r'|]|e]; try done.
      by rewrite store_names_put.
    + apply elem_of_cons in Hin as [->|?]; [|done].
      rewrite put_all_other by by right.
      unfold fetched in Hr.
      destruct (net h (request_of u)) as [[r'|]|e]; try done.
      injection Hr as ->. by apply stored_in_put.
Qed.

Lemma fetchable_fetched u :
  fetchable h u = true →
  ∃ r, net h (request_of u) = Fulfilled (Some r) ∧ ok r = true ∧
       fetched h u = Some r.
Proof.
  unfold fetchable, fetched.
  destruct (net h (request_of u)) as [[r|]|e]; try done. eauto.
Qed.

(** How an install goes: either everything went well and the manifest is
    put into the static cache, or the failure was caught and the store
    holds what it held. *)
Lemma on_install_cases w :
  (install_ok cfg h ∧
   ∃ es, on_install cfg h w =
     (Fulfilled (),
      {| caches := put_all h (STATIC_CACHE cfg)
                     (store_open (caches w) (STATIC_CACHE cfg))
                     (CORE_ASSETS cfg);
         events := events w ++ es |}) ∧
     SkipWaiting ∈ es ∧ filter is_delete es = []) ∨
  (¬ install_ok cfg h ∧
   ∃ s es, on_install cfg h w =
     (Fulfilled (), {| caches := s; events := events w ++ es |}) ∧
     (s = caches w ∨ s = store_open (caches w) (STATIC_CACHE cfg)) ∧
     (SkipWaiting ∉ es) ∧ filter is_delete es = []).
Proof.
  unfold install_ok, on_install, cache_addAll. task_unfold. simpl.
  destruct (open_fault h (STATIC_CACHE cfg)) as [e|]; simpl.
  { right. split; [by intros [? _]|].
    exists (caches w),
      [ConsoleLog ["[SW] Installing service worker"];
       ConsoleLog ["[SW] Cache installation failed:"; error_text e]].
    split_and!.
    - log_eq.
    - by left.
    - rewrite !elem_of_cons, elem_of_nil. intuition congruence.
    - done. }
  rewrite ask_all_world. simpl.
  assert (Hnd : ∀ urls : list string,
            filter is_delete ((λ u, NetFetch (request_of u)) <$> urls) = []).
  { intros urls. induction urls as [|u urls IH]; [done|].
    rewrite fmap_cons, filter_cons_False; [done | by intros []]. }
  assert (Hns : ∀ urls : list string,
            SkipWaiting ∉ (λ u, NetFetch (request_of u)) <$> urls).
  { intros urls (u & ? & _)%list_elem_of_fmap. congruence. }
  destruct (forallb (fetchable h) (CORE_ASSETS cfg)); simpl.
  2:{ right. split; [by intros (_ & ? & _)|].
      exists (store_open (caches w) (STATIC_CACHE cfg)),
        ([ConsoleLog ["[SW] Installing service worker"];
          ConsoleLog ["[SW] Caching core assets"]] ++
         ((λ u, NetFetch (request_of u)) <$> CORE_ASSETS cfg) ++
         [ConsoleLog ["[SW] Cache installation failed:";
                      error_text (TypeError "Failed to execute addAll on Cache: Request failed")]]).
      split_and!.
      - log_eq.
      - by right.
      - rewrite !elem_of_app, !elem_of_cons, !elem_of_nil.
        intros [[?|[?|[]]]|[?|[?|[]]]]; try congruence. by eapply Hns.
      - rewrite !filter_app, Hnd. done. }
  destruct (head (omap (put_fault h (STATIC_CACHE cfg)) (CORE_ASSETS cfg)))
    as [e|]; simpl.
  - right. split; [by intros (_ & _ & ?)|].
    exists (store_open (caches w) (STATIC_CACHE cfg)),
      ([ConsoleLog ["[SW] Installing service worker"];
        ConsoleLog ["[SW] Caching core assets"]] ++
       ((λ u, NetFetch (request_of u)) <$> CORE_ASSETS cfg) ++
       [ConsoleLog ["[SW] Cache installation failed:"; error_text e]]).
    split_and!.
    + log_eq.
    + by right.
    + rewrite !elem_of_app, !elem_of_cons, !elem_of_nil.
      intros [[?|[?|[]]]|[?|[?|[]]]]; try congruence. by eapply Hns.
    + rewrite !filter_app, Hnd. done.
  - left. split; [done|].
    exists ([ConsoleLog ["[SW] Installing service worker"];
             ConsoleLog ["[SW] Caching core assets"]] ++
            ((λ u, NetFetch (request_of u)) <$> CORE_ASSETS cfg) ++
            [ConsoleLog ["[SW] Core assets cached"]; SkipWaiting]).
    split_and!.
    + log_eq.
    + rewrite !elem_of_app, !elem_of_cons. right. right. right. by left.
    + rewrite !filter_app, Hnd. done.
Qed.

(** After an install in which everything went well the static cache
    holds every manifest entry. *)
Lemma manifest_stored_after_install w :
  install_ok cfg h →
  ∀ u, u ∈ CORE_ASSETS cfg →
    ∃ r, stored_in (caches (on_install cfg h w).2) (STATIC_CACHE cfg) u =
           Some r.
Proof.
  intros Hok u Hu.
  destruct (on_install_cases w) as [(_ & es & -> & _)|[Hno _]]; [|done].
  destruct Hok as (_ & Hall & _). rewrite forallb_forall in Hall.
  destruct (fetchable_fetched u) as (r & _ & _ & Hr).
  { apply Hall. by apply list_elem_of_In. }
  exists r. simpl. apply put_all_in; [apply store_names_open | done | done].
Qed.

(** X8: when the static cache opens, every manifest entry is fetched
    with an ok status and the store accepts the entries, the install
    handler's promise fulfils, [skipWaiting] is called, and the static
    cache then holds, for every manifest entry, the response the network
    gave for it. *)
Theorem X8_successful_install_stores_manifest w :
  install_ok cfg h →
  ∃ w' es,
    on_install cfg h w = (Fulfilled (), w') ∧
    emitted w w' es ∧
    SkipWaiting ∈ es ∧
    ∀ u, u ∈ CORE_ASSETS cfg →
      ∃ r, net h (request_of u) = Fulfilled (Some r) ∧ ok r = true ∧
           stored_in (caches w') (STATIC_CACHE cfg) u = Some r.
Proof.
  intros Hok.
  destruct (on_install_cases w) as [(_ & es & Hrun & Hsk & _)|[Hno _]];
    [|done].
  eexists _, es. split; [exact Hrun|]. split_and!; try done.
  intros u Hu. destruct Hok as (_ & Hall & _).
  rewrite forallb_forall in Hall.
  destruct (fetchable_fetched u) as (r & Hn & Hokr & Hr).
  { apply Hall. by apply list_elem_of_In. }
  exists r. split_and!; try done. simpl.
  apply put_all_in; [apply store_names_open | done | done].
Qed.

(** X9: install is all or nothing.  [skipWaiting] is called exactly when
    the static cache opened, every manifest entry was fetched with an ok
    status and the store accepted them; in every other case no cache
    holds anything it did not hold before.  Either way the handler's
    promise fulfils. *)
Theorem X9_install_is_all_or_nothing w :
  ∃ w' es,
    on_install cfg h w = (Fulfilled (), w') ∧
    emitted w w' es ∧
    (SkipWaiting ∈ es ↔ install_ok cfg h) ∧
    (¬ install_ok cfg h →
     ∀ name key,
       stored_in (caches w') name key = stored_in (caches w) name key).
Proof.
  destruct (on_install_cases w)
    as [(Hok & es & Hrun & Hsk & _)|(Hno & s & es & Hrun & Hs & Hsk & _)].
  - eexists _, es. split; [exact Hrun|]. split_and!; try done.
  - eexists _, es. split; [exact Hrun|]. split_and!; try done.
    intros _ name key. simpl. destruct Hs as [->| ->]; [done|].
    apply stored_in_open.
Qed.

(** X10: install never removes a cache, and it changes nothing but the
    manifest's own entries in the static cache: every entry of another
    cache, and every entry of the static cache under a URL outside the
    manifest, reads as before. *)
Theorem X10_install_touches_only_manifest_entries w :
  (∀ n, n ∈ store_names (caches w) →
        n ∈ store_names (caches (on_install cfg h w).2)) ∧
  (∀ name key, name ≠ STATIC_CACHE cfg ∨ key ∉ CORE_ASSETS cfg →
     stored_in (caches (on_install cfg h w).2) name key =
     stored_in (caches w) name key).
Proof.
  destruct (on_install_cases w)
    as [(Hok & es & -> & _)|(Hno & s & es & -> & Hs & _)]; simpl.
  - split.
    + intros n Hn. rewrite put_all_names. by apply store_names_open_incl.
    + intros name key Hne. rewrite put_all_other by done.
      apply stored_in_open.
  - destruct Hs as [->| ->]; [done|]. split; intros.
    + by apply store_names_open_incl.
    + apply stored_in_open.
Qed.

End install_more.

(** * More about the activate handler *)

Section activate_more.
Context (cfg : Config) (h : Host).
Implicit Types (w : World) (s : Store) (n : string).

Lemma delete_if_old_events n w :
  events (delete_if_old cfg h n w).2 = events w ++ delete_calls cfg [n].
Proof.
  unfold delete_if_old, delete_calls, caches_delete, old. task_unfold. simpl.
  destruct (decide (n ≠ CACHE_NAME cfg ∧ n ≠ STATIC_CACHE cfg)); simpl.
  - destruct (delete_fault h n); simpl; by rewrite <- app_assoc.
  - by rewrite app_nil_r.
Qed.

Lemma delete_all_old_events (ns : list string) w :
  events (promise_all (delete_if_old cfg h <$> ns) w).2 =
  events w ++ delete_calls cfg ns.
Proof.
  revert w. induction ns as [|n ns IH]; intros w.
  - simpl. by rewrite app_nil_r.
  - rewrite fmap_cons. cbn [promise_all].
    pose proof (delete_if_old_events n w) as Hn.
    destruct (delete_if_old cfg h n w) as [p1 w1]. simpl in Hn.
    pose proof (IH w1) as Hns.
    destruct (promise_all (delete_if_old cfg h <$> ns) w1) as [p2 w2].
    simpl in *. rewrite Hns, Hn.
    unfold delete_calls. simpl. by rewrite app_nil_r, <- app_assoc.
Qed.

Lemma elem_of_delete_calls (ns : list string) n :
  CacheDelete n ∈ delete_calls cfg ns ↔ n ∈ ns ∧ old cfg n.
Proof.
  unfold delete_calls. induction ns as [|m ns IH]; simpl.
  - rewrite !elem_of_nil. tauto.
  - rewrite elem_of_app, IH, elem_of_cons.
    destruct (decide (old cfg m)) as [Hm|Hm].
    + rewrite !elem_of_cons, elem_of_nil. split.
      * intros [[?|[[= ->]|[]]]|[? ?]]; try done; tauto.
      * intros [[->|?] ?]; [left; right; by left | by right].
    + rewrite elem_of_nil. split.
      * intros [[]|[? ?]]. tauto.
      * intros [[->|?] ?]; [done | by right].
Qed.

Lemma delete_calls_clean (ns : list string) :
  (∀ n, n ∈ ns → current cfg n) → delete_calls cfg ns = [].
Proof.
  unfold delete_calls. induction ns as [|m ns IH]; intros Hall; simpl; [done|].
  rewrite IH by (intros n Hn; apply Hall; by right).
  rewrite decide_False; [done|].
  apply not_old_current, Hall. by left.
Qed.

(** The log of an activation whose listing of the caches succeeds. *)
Lemma on_activate_events w :
  keys_fault h = None →
  ∃ tail,
    events (on_activate cfg h w).2 =
      events w ++ [ConsoleLog ["[SW] Activating service worker"]] ++
      delete_calls cfg (store_names (caches w)) ++ tail ∧
    (tail = [] ∨
     tail = [ConsoleLog ["[SW] Service worker activated"]; ClientsClaim]).
Proof.
  intros Hk. unfold on_activate, caches_keys. task_unfold. rewrite Hk. simpl.
  set (w0 := record (ConsoleLog ["[SW] Activating service worker"]) w).
  pose proof (delete_all_old_events (store_names (caches w)) w0) as Hev.
  change (caches w0) with (caches w).
  destruct (promise_all (delete_if_old cfg h <$> store_names (caches w)) w0)
    as [[l|e] w1]; simpl in *.
  - eexists. split; [|by right]. unfold emit, record. simpl.
    rewrite Hev. simpl. by rewrite <- !app_assoc.
  - exists []. split; [|by left]. rewrite Hev. simpl.
    by rewrite app_nil_r, <- app_assoc.
Qed.

(** X11: activation asks the store to delete exactly the caches it lists
    under a name other than the two current ones; it never asks for the
    delete of a current cache or of a cache that is not there. *)
Theorem X11_deletes_requested_for_old_caches_only w :
  keys_fault h = None →
  ∃ es,
    emitted w (on_activate cfg h w).2 es ∧
    ∀ n, CacheDelete n ∈ es ↔ n ∈ store_names (caches w) ∧ old cfg n.
Proof.
  intros Hk. destruct (on_activate_events w Hk) as (tail & Hev & Htail).
  eexists. split; [exact Hev|]. intros n.
  rewrite elem_of_app, elem_of_app, elem_of_delete_calls,
    list_elem_of_singleton.
  split.
  - intros [?|[?|Hin]]; [congruence | done |].
    destruct Htail as [->| ->]; revert Hin;
      rewrite ?elem_of_cons, ?elem_of_nil; intuition congruence.
  - intros ?. right. by left.
Qed.

(** X12: when the store cannot list its caches, activation rejects with
    the store's error; nothing is deleted and [clients.claim] is not
    called. *)
Theorem X12_listing_failure_rejects_activation w e :
  keys_fault h = Some e →
  on_activate cfg h w =
    (Rejected e, record (ConsoleLog ["[SW] Activating service worker"]) w).
Proof.
  intros Hk. unfold on_activate, caches_keys. task_unfold. by rewrite Hk.
Qed.

Lemma filter_all_in {A} (P : A → Prop) `{!∀ x, Decision (P x)} (l : list A) :
  (∀ x, x ∈ l → P x) → filter P l = l.
Proof.
  induction l as [|x l IH]; intros HP; [done|].
  rewrite filter_cons_True by (apply HP; by left).
  rewrite IH; [done|]. intros y Hy. apply HP. by right.
Qed.

(** On a store that holds current caches only, activation deletes
    nothing and succeeds, whatever deletes the store would refuse. *)
Lemma on_activate_clean w :
  keys_fault h = None →
  (∀ n, n ∈ store_names (caches w) → current cfg n) →
  on_activate cfg h w =
    (Fulfilled (),
     {| caches := caches w;
        events := events w ++
          [ConsoleLog ["[SW] Activating service worker"];
           ConsoleLog ["[SW] Service worker activated"]; ClientsClaim] |}).
Proof.
  intros Hk Hcur.
  destruct (on_activate_run cfg h w Hk) as (p & es & Hrun & Hp).
  destruct (on_activate_events w Hk) as (tail & Hev & Htail).
  rewrite Hrun in Hev. simpl in Hev. apply app_inv_head in Hev.
  rewrite delete_calls_clean in Hev by done. simpl in Hev.
  rewrite Hrun. destruct p as [[]|e].
  - destruct Hp as [_ Hclaim]. f_equal. f_equal.
    + apply filter_all_in. intros [n c] Hin [Hn _]. simpl in *.
      apply (not_old_current cfg n); [|done].
      apply Hcur. by apply (list_elem_of_fmap_2 fst) in Hin.
    + f_equal. rewrite Hev. destruct Htail as [->| ->]; [|done].
      rewrite Hev in Hclaim. revert Hclaim.
      rewrite elem_of_cons, elem_of_nil. intuition congruence.
  - destruct Hp as [(n & Hin & Ho & _) _].
    exfalso. by apply (not_old_current cfg n); [apply Hcur|].
Qed.

End activate_more.

(** * The handlers one after the other *)

Section lifecycle.
Context (cfg : Config) (h h2 : Host).
Implicit Types (req : Request) (w : World) (s : Store) (n u : string).

(** X13: activation is idempotent.  After an activation whose deletes
    the store carried out, a second activation leaves the store as it
    is, asks for no delete at all, and succeeds, whatever deletes the
    store would now refuse. *)
Theorem X13_second_activation_deletes_nothing w :
  keys_fault h = None →
  (∀ n, n ∈ store_names (caches w) → delete_fault h n = None) →
  keys_fault h2 = None →
  ∃ w1 w2 es,
    on_activate cfg h w = (Fulfilled (), w1) ∧
    on_activate cfg h2 w1 = (Fulfilled (), w2) ∧
    caches w2 = caches w1 ∧
    emitted w1 w2 es ∧ ClientsClaim ∈ es ∧ filter is_delete es = [].
Proof.
  intros Hk Hdel Hk2.
  destruct (on_activate_run cfg h w Hk) as (p & es & Hrun & Hp).
  destruct p as [[]|e].
  2:{ destruct Hp as [(n & Hin & _ & Hsome) _].
      rewrite (Hdel n Hin) in Hsome. by destruct Hsome. }
  set (w1 := {| caches := filter (λ nc, ¬ removable cfg h nc.1) (caches w);
                events := events w ++ es |}) in *.
  assert (Hcur : ∀ n, n ∈ store_names (caches w1) → current cfg n).
  { simpl.
    intros n [Hin Hn]%(store_names_filter (λ n, ¬ removable cfg h n)).
    apply not_old_current. intros Ho. apply Hn. split; [done|].
    by apply Hdel. }
  eexists w1, _, _. split; [exact Hrun|].
  rewrite (on_activate_clean cfg h2 w1 Hk2 Hcur).
  split_and!; try done.
  rewrite !elem_of_cons. tauto.
Qed.

Lemma stored_in_match s n key r :
  stored_in s n key = Some r → is_Some (store_match s key).
Proof.
  unfold stored_in. induction s as [|[m c] s IH]; simpl; [done|].
  destruct (c !! key) as [r'|] eqn:Hc; [by eexists|].
  destruct (decide (m = n)); simpl; [congruence | done].
Qed.

(** The static cache outlives activation. *)
Lemma static_cache_kept w key :
  keys_fault h = None →
  stored_in (caches (on_activate cfg h w).2) (STATIC_CACHE cfg) key =
  stored_in (caches w) (STATIC_CACHE cfg) key.
Proof.
  intros Hk. destruct (on_activate_run cfg h w Hk) as (p & es & -> & _).
  simpl. unfold stored_in.
  rewrite (store_get_filter_keep (λ n, ¬ removable cfg h n)); [done|].
  intros [[_ Hne] _]. done.
Qed.

(** X14: offline bootstrap.  After an install in which everything went
    well, followed by activation, a GET request for any manifest entry
    is answered from the store: whatever the network would do then, it
    is not asked. *)
Theorem X14_manifest_served_after_install_and_activation w u m :
  install_ok cfg h →
  keys_fault h = None →
  u ∈ CORE_ASSETS cfg →
  String.prefix "chrome-extension://" u = false →
  match_fault h2 u = None →
  ∃ r,
    dispatch_fetch cfg h2 {| method := "GET"; url := u; mode := m |}
      (on_activate cfg h (on_install cfg h w).2).2 =
    (Fulfilled (Some r),
     record (ConsoleLog ["[SW] Serving from cache:"; u])
       (on_activate cfg h (on_install cfg h w).2).2).
Proof.
  intros Hok Hk Hu Hp Hf.
  destruct (manifest_stored_after_install cfg h w Hok u Hu)
    as (r0 & Hst).
  set (w1 := (on_install cfg h w).2) in *.
  set (w2 := (on_activate cfg h w1).2).
  assert (Hm : is_Some (store_match (caches w2) u)).
  { apply (stored_in_match _ (STATIC_CACHE cfg) _ r0).
    unfold w2. by rewrite static_cache_kept. }
  destruct Hm as [r Hm]. exists r.
  rewrite dispatch_respond by by split.
  by apply respond_hit.
Qed.

(** X15: with the root document in the manifest, after a successful
    install and activation an intercepted navigation whose network fetch
    rejects is always answered with a stored response: its own, or the
    root document's. *)
Theorem X15_offline_navigation_after_install req w e :
  install_ok cfg h →
  keys_fault h = None →
  "/" ∈ CORE_ASSETS cfg →
  intercepted req →
  mode req = "navigate" →
  net h2 req = Rejected e →
  match_fault h2 (url req) = None →
  match_fault h2 "/" = None →
  ∃ r w3,
    dispatch_fetch cfg h2 req (on_activate cfg h (on_install cfg h w).2).2 =
      (Fulfilled (Some r), w3) ∧
    caches w3 = caches (on_activate cfg h (on_install cfg h w).2).2.
Proof.
  intros Hok Hk Hroot Hi Hm Hn Hf Hf'.
  destruct (manifest_stored_after_install cfg h w Hok "/" Hroot)
    as (r0 & Hst).
  set (w1 := (on_install cfg h w).2) in *.
  set (w2 := (on_activate cfg h w1).2).
  assert (Hr : is_Some (store_match (caches w2) "/")).
  { apply (stored_in_match _ (STATIC_CACHE cfg) _ r0).
    unfold w2. by rewrite static_cache_kept. }
  destruct Hr as [root Hr].
  rewrite dispatch_respond by done.
  destruct (store_match (caches w2) (url req)) as [r|] eqn:Hs.
  - exists r. eexists. by rewrite (respond_hit cfg h2 req w2 r).
  - exists root. eexists.
    rewrite (respond_offline_navigate cfg h2 req w2 e) by done.
    unfold caches_match. rewrite Hf'. simpl. by rewrite Hr.
Qed.

(** X16: no handler ever stores an extension-scheme key.  From a store
    without such keys, and a manifest without such URLs, the store
    after an install, after an activation and after any fetch event is
    again without them. *)
Theorem X16_no_handler_stores_extension_keys req w :
  store_wf (caches w) →
  Forall (λ u, String.prefix "chrome-extension://" u = false)
    (CORE_ASSETS cfg) →
  store_wf (caches (on_install cfg h w).2) ∧
  store_wf (caches (on_activate cfg h w).2) ∧
  store_wf (caches (dispatch_fetch cfg h req w).2).
Proof.
  intros Hwf Hman. split_and!.
  - by apply on_install_wf.
  - by apply on_activate_wf.
  - destruct (dispatch_caches cfg h req w) as [->|[->|(r & [_ Hp] & ->)]].
    + done.
    + by apply store_wf_open.
    + by apply store_wf_put, store_wf_open.
Qed.

(** X17: a push without data shows nothing; a push with data shows one
    notification whose body is the payload text as it is.  Its icon and
    badge are a manifest entry, so after an install in which everything
    went well the static cache holds them. *)
Theorem X17_push_notification_uses_cached_icon (payload : option string)
    (now : Z) w :
  install_ok sw_config h →
  (on_push payload now = None ↔ payload = None) ∧
  ∀ shown, on_push payload now = Some shown →
    payload = Some (Notification.body (Notification.options shown)) ∧
    Notification.badge (Notification.options shown) =
      Notification.icon (Notification.options shown) ∧
    is_Some (stored_in (caches (on_install sw_config h w).2)
               (STATIC_CACHE sw_config)
               (Notification.icon (Notification.options shown))).
Proof.
  intros Hok. split.
  - destruct payload; simpl; split; done.
  - intros shown Hs. destruct payload as [text|]; [|done].
    injection Hs as <-. simpl. split_and!; try done.
    destruct (manifest_stored_after_install sw_config h w Hok
                "/assets/favicon.svg") as (r & Hr).
    + right. right. by left.
    + by exists r.
Qed.

End lifecycle.

(** * The further properties at sample inputs *)

Lemma X2_witness :
  ∃ w',
    dispatch_fetch sw_config host_quota get_script world_installed =
      (Fulfilled (Some shell), w') ∧
    (∀ name key,
       stored_in (caches w') name key =
       stored_in (caches world_installed) name key) ∧
    (∀ key, store_match (caches w') key =
            store_match (caches world_installed) key).
Proof.
  apply (X2_failed_write_is_swallowed sw_config host_quota
           get_script world_installed shell).
  - split; reflexivity.
  - reflexivity.
  - vm_compute. reflexivity.
  - reflexivity.
  - reflexivity.
  - reflexivity.
  - right. by exists quota_error.
Defined.

Lemma X5_witness :
  ∃ w1,
    dispatch_fetch sw_config host_not_found get_script world_installed =
      (Fulfilled (Some not_found), w1) ∧
    caches w1 = caches world_installed ∧
    dispatch_fetch sw_config host_not_found get_script w1 =
      (Fulfilled (Some not_found), asked_network get_script w1).
Proof.
  apply (X5_unstorable_response_is_refetched sw_config host_not_found
           get_script world_installed (Some not_found)).
  - split; reflexivity.
  - reflexivity.
  - vm_compute. reflexivity.
  - reflexivity.
  - intros (_ & Hs & _). discriminate Hs.
Defined.

Lemma X6_witness :
  on_fetch sw_config host_root_fault get_settings world_installed =
    (RespondWith (Rejected quota_error),
     logged_failure get_settings offline_error world_installed).
Proof.
  apply (X6_root_lookup_failure_replaces_network_error sw_config
           host_root_fault get_settings world_installed
           offline_error quota_error).
  - split; reflexivity.
  - reflexivity.
  - reflexivity.
  - vm_compute. reflexivity.
  - reflexivity.
  - reflexivity.
Defined.

Lemma X7_witness :
  ∃ w' es,
    dispatch_all sw_config host_online (replicate 3 get_script)
      world_installed =
      (replicate 3 (Fulfilled (Some shell)), w') ∧
    emitted world_installed w' es ∧
    filter is_fetch es = [NetFetch get_script].
Proof.
  apply (X7_repeated_requests_fetch_once sw_config host_online
           get_script world_installed shell 2).
  - split; reflexivity.
  - reflexivity.
  - vm_compute. reflexivity.
  - reflexivity.
  - reflexivity.
  - reflexivity.
  - reflexivity.
  - reflexivity.
Defined.

Lemma X8_witness :
  ∃ w' es,
    on_install sw_config host_online world_empty = (Fulfilled (), w') ∧
    emitted world_empty w' es ∧
    SkipWaiting ∈ es ∧
    ∀ u, u ∈ CORE_ASSETS sw_config →
      ∃ r, net host_online (request_of u) = Fulfilled (Some r) ∧
           ok r = true ∧
           stored_in (caches w') (STATIC_CACHE sw_config) u = Some r.
Proof.
  apply (X8_successful_install_stores_manifest sw_config host_online
           world_empty).
  split_and!; reflexivity.
Defined.

Lemma X11_witness :
  ∃ es,
    emitted world_upgraded
      (on_activate sw_config host_online world_upgraded).2 es ∧
    ∀ n, CacheDelete n ∈ es ↔
         n ∈ store_names (caches world_upgraded) ∧ old sw_config n.
Proof.
  apply (X11_deletes_requested_for_old_caches_only sw_config host_online
           world_upgraded).
  reflexivity.
Defined.

Lemma X12_witness :
  on_activate sw_config host_keys_fault world_upgraded =
    (Rejected quota_error,
     record (ConsoleLog ["[SW] Activating service worker"]) world_upgraded).
Proof.
  apply (X12_listing_failure_rejects_activation sw_config host_keys_fault
           world_upgraded quota_error).
  reflexivity.
Defined.

Lemma X13_witness :
  ∃ w1 w2 es,
    on_activate sw_config host_online world_upgraded = (Fulfilled (), w1) ∧
    on_activate sw_config host_delete_fault w1 = (Fulfilled (), w2) ∧
    caches w2 = caches w1 ∧
    emitted w1 w2 es ∧ ClientsClaim ∈ es ∧ filter is_delete es = [].
Proof.
  apply (X13_second_activation_deletes_nothing sw_config host_online
           host_delete_fault world_upgraded).
  - reflexivity.
  - intros n _. reflexivity.
  - reflexivity.
Defined.

Lemma X14_witness :
  ∃ r,
    dispatch_fetch sw_config host_offline
      {| method := "GET"; url := "/assets/global.css"; mode := "no-cors" |}
      (on_activate sw_config host_online
         (on_install sw_config host_online world_empty).2).2 =
    (Fulfilled (Some r),
     record (ConsoleLog ["[SW] Serving from cache:"; "/assets/global.css"])
       (on_activate sw_config host_online
          (on_install sw_config host_online world_empty).2).2).
Proof.
  apply (X14_manifest_served_after_install_and_activation sw_config
           host_online host_offline world_empty
           "/assets/global.css" "no-cors").
  - split_and!; reflexivity.
  - reflexivity.
  - right. by left.
  - reflexivity.
  - reflexivity.
Defined.

Lemma X15_witness :
  ∃ r w3,
    dispatch_fetch sw_config host_offline get_settings
      (on_activate sw_config host_online
         (on_install sw_config host_online world_empty).2).2 =
      (Fulfilled (Some r), w3) ∧
    caches w3 =
      caches (on_activate sw_config host_online
                (on_install sw_config host_online world_empty).2).2.
Proof.
  apply (X15_offline_navigation_after_install sw_config host_online
           host_offline get_settings world_empty offline_error).
  - split_and!; reflexivity.
  - reflexivity.
  - by left.
  - split; reflexivity.
  - reflexivity.
  - reflexivity.
  - reflexivity.
  - reflexivity.
Defined.

Lemma X16_witness :
  store_wf (caches (on_install sw_config host_online world_installed).2) ∧
  store_wf (caches (on_activate sw_config host_online world_installed).2) ∧
  store_wf
    (caches (dispatch_fetch sw_config host_online get_script
               world_installed).2).
Proof.
  apply (X16_no_handler_stores_extension_keys sw_config host_online
           get_script world_installed).
  - apply (bool_decide_unpack _). vm_compute. exact I.
  - repeat constructor.
Defined.

Lemma X17_witness :
  (on_push (Some "Draft saved") 0 = None ↔ Some "Draft saved" = None) ∧
  ∀ shown, on_push (Some "Draft saved") 0 = Some shown →
    Some "Draft saved" =
      Some (Notification.body (Notification.options shown)) ∧
    Notification.badge (Notification.options shown) =
      Notification.icon (Notification.options shown) ∧
    is_Some (stored_in (caches (on_install sw_config host_online
                                  world_empty).2)
               (STATIC_CACHE sw_config)
               (Notification.icon (Notification.options shown))).
Proof.
  apply (X17_push_notification_uses_cached_icon host_online
           (Some "Draft saved") 0 world_empty).
  split_and!; reflexivity.
Defined.

Lemma X18_witness :
  store_names
    (caches (dispatch_fetch sw_config host_online get_script
               world_installed).2) =
    if decide (CACHE_NAME sw_config ∈ store_names (caches world_installed))
    then store_names (caches world_installed)
    else store_names (caches world_installed) ++ [CACHE_NAME sw_config].
Proof.
  apply (X18_first_write_creates_dynamic_cache sw_config host_online
           get_script world_installed shell).
  - split; reflexivity.
  - reflexivity.
  - vm_compute. reflexivity.
  - reflexivity.
  - reflexivity.
  - reflexivity.
  - reflexivity.
  - reflexivity.
Defined.
